(** * wander: the external bridge of an overlay node

    A shallow embedding of [src/wander/comms_external.c]: the two entry
    points [handle_send_external] and [handle_external], the data they
    touch, and the calls they make to the kernel and to the rest of the
    node.  Calls that leave the file (sockets, the node's [send_func], the
    routing helpers) are recorded in a trace of events; their results are
    read from an environment record, so that every execution path of the C
    code is a value of the model.  A read through a NULL pointer ends the
    run with no result; a read outside an array goes on with whatever is
    found there. *)

From Stdlib Require Import ZArith String List Lia.
From stdpp Require Import base list gmap.
Import ListNotations.

Local Open Scope Z_scope.

(** ** Machine integers *)

Definition UINT16_MAX : Z := 65535.

(** [u32] arithmetic wraps around. *)
Definition u32_wrap (z : Z) : Z := z mod 2 ^ 32.

Definition u32_incr (z : Z) : Z := u32_wrap (z + 1).

(** ** Data model *)

Definition u8 : Type := Byte.byte.

(** [struct wander_packet].  The declaration lives in [wander/packet.h],
    outside this file; the fields are those the source reads
    ([dest_ipv4], [dest_port], [payload], [payload_len]).  The width of
    [payload_len] is not visible from the source and is kept as an
    integer. *)
Record wander_packet : Type := {
  dest_ipv4 : string;
  dest_port : Z;
  payload : list u8;
  payload_len : Z
}.

(** [struct packet_route_t]: a path array with its length and a cursor. *)
Record packet_route_t : Type := {
  path : list Z;
  len : Z;
  step : Z
}.

(** [struct wander_internal_packet].  [payload] and [pr] are pointers and
    may be NULL ([None]). *)
Record wander_internal_packet : Type := {
  ipayload : option wander_packet;
  pr : option packet_route_t;
  prev_node_id : Z;
  dest_node_id : Z;
  is_response : bool;
  ipayload_len : Z
}.

(** [struct route_t], as far as the source uses it: the path the routing
    table knows and the latency hint [route_sleep] waits for. *)
Record route_t : Type := {
  route_path : list Z;
  route_delay : Z
}.

(** The parts of [struct node_t] that are plain data.  The [running] flag
    and [send_func] belong to the environment. *)
Record node_t : Type := {
  node_id : Z;
  routing_table : list route_t
}.

(** [struct external_request_thread_data_t]. *)
Record external_request_thread_data_t : Type := {
  node : node_t;
  connection : Z
}.

(** Array read [a[i]]; [None] outside the array. *)
Definition index (a : list Z) (i : Z) : option Z :=
  if i <? 0 then None else a !! Z.to_nat i.

(** ** Events *)

(** What [recv] hands back: an error ([-1]), or the bytes it stored.  No
    bytes means the peer closed the connection ([0]). *)
Inductive recv_result : Type :=
| RecvError
| RecvBytes (d : list u8).

Definition recv_ret (r : recv_result) : Z :=
  match r with
  | RecvError => -1
  | RecvBytes d => Z.of_nat (length d)
  end.

Definition recv_data (r : recv_result) : list u8 :=
  match r with
  | RecvError => []
  | RecvBytes d => d
  end.

(** The pointer given to [send]: the inner payload buffer, or the packet
    structure itself reinterpreted as bytes. *)
Inductive send_buf : Type :=
| InnerPayload (wp : wander_packet)
| WholePacket (wp : wander_packet).

Inductive event : Type :=
| EvSocket (fd : Z)
| EvConnect (fd : Z) (ip : string) (port : Z)
| EvSend (fd : Z) (buf : send_buf) (n : Z)
| EvRecv (fd : Z) (cap : Z) (r : recv_result)
| EvSendFunc (p : wander_internal_packet) (next : Z)
| EvPacketRouteFree (r : option packet_route_t)
| EvClose (fd : Z)
| EvRecvPacket (conn : Z) (bytes_read : Z)
| EvRouteSleep (r : route_t)
| EvUsePacketRoute (p : wander_internal_packet) (n : Z)
| EvSendBogo (p : wander_internal_packet) (n : Z)
| EvPropagateFailure (p : wander_internal_packet) (n : Z)
| EvShutdown (conn : Z)
| EvFree (conn : Z).

Definition trace : Type := list event.

(** ** A monad for C control flow

    A computation emits events and then either continues with a value,
    leaves the function with [return r], or stops on a NULL
    dereference. *)

Inductive flow (R A : Type) : Type :=
| Next (a : A)
| Return (r : R)
| Fault.

Arguments Next {R A} a.
Arguments Return {R A} r.
Arguments Fault {R A}.

Definition M (R A : Type) : Type := trace * flow R A.

Definition ret {R A} (a : A) : M R A := ([], Next a).

Definition bind {R A B} (m : M R A) (k : A -> M R B) : M R B :=
  match m with
  | (t, Next a) => let (t', f) := k a in (t ++ t', f)
  | (t, Return r) => (t, Return r)
  | (t, Fault) => (t, Fault)
  end.

Definition emit {R} (e : event) : M R unit := ([e], Next tt).

Definition return_ {R A} (r : R) : M R A := ([], Return r).

Definition fault {R A} : M R A := ([], Fault).

(** Dereference of a pointer. *)
Definition deref {R A} (p : option A) : M R A :=
  match p with
  | Some a => ret a
  | None => fault
  end.

Declare Scope c_scope.
Delimit Scope c_scope with c.

Notation "x <- m ;; k" := (bind m (fun x => k))
  (at level 100, m at next level, right associativity) : c_scope.
Notation "m ;; k" := (bind m (fun _ => k))
  (at level 100, right associativity) : c_scope.

(** A function body that falls off its end returns [r]. *)
Definition run {R} (m : M R R) : trace * option R :=
  match m with
  | (t, Next r) => (t, Some r)
  | (t, Return r) => (t, Some r)
  | (t, Fault) => (t, None)
  end.

(** ** Packet helpers declared in [wander/packet.h] and [wander/routing.h] *)

(** Modelled from the spec: [reverse_route(path, len)] is defined outside
    [comms_external.c]; it "returns a new sequence that is the exact
    reverse of [path]", a pure function of the [len] elements of the
    array. *)
Definition reverse_route (p : list Z) (n : Z) : list Z :=
  reverse (take (Z.to_nat n) p).

(** Modelled from the spec: the allocation done by [reverse_route], which
    "must allocate a fresh sequence (the forward path remains usable for
    cleanup independent of the reversed one)".  The store maps the address
    of each path buffer to its elements. *)
Definition reverse_route_alloc (h : gmap positive (list Z)) (a : positive) (n : Z)
  : option (positive * gmap positive (list Z)) :=
  match h !! a with
  | Some p => let b := fresh (dom h) in Some (b, <[b := reverse_route p n]> h)
  | None => None
  end.

(** Modelled from the spec: [wander_internal_from_external(packet)] is
    defined outside [comms_external.c]; it "allocates an InternalPacket
    whose [payload] aliases/owns the given external packet; [pr] is unset;
    caller must set [prev_node_id]/[dest_node_id] next".  The fields the
    spec does not fix are those of the allocation, [alloc]. *)
Definition wander_internal_from_external (alloc : wander_internal_packet)
    (packet : option wander_packet) : wander_internal_packet :=
  {| ipayload := packet;
     pr := None;
     prev_node_id := prev_node_id alloc;
     dest_node_id := dest_node_id alloc;
     is_response := is_response alloc;
     ipayload_len := ipayload_len alloc |}.

(** Modelled from the spec: [route_table_empty] is defined outside
    [comms_external.c]; it is "true iff the node has no known multi-hop
    routes". *)
Definition route_table_empty (rt : list route_t) : bool :=
  match rt with
  | [] => true
  | _ :: _ => false
  end.

(** Modelled from the spec: [get_random_route] is defined outside
    [comms_external.c]; it "selects one route ... at random from known
    routes".  The random draw is the number [choice]. *)
Definition get_random_route (rt : list route_t) (choice : nat) : option route_t :=
  rt !! (choice mod length rt)%nat.

(** Modelled from the spec: [route_to_packet_route] is defined outside
    [comms_external.c]; it "materializes a scoped copy of the route as a
    packet-owned path with [step = 0]". *)
Definition route_to_packet_route (r : route_t) : packet_route_t :=
  {| path := route_path r;
     len := Z.of_nat (length (route_path r));
     step := 0 |}.

(** ** The external bridge: [handle_send_external] *)

(** What the world answers during one call: the results of [socket],
    [connect] and [send], what each successive [recv] returns (a script
    that has run out means the peer has closed), the value of
    [node->running] at each test of the loop condition, and the record
    [wander_internal_from_external] allocates.  [logging] tells whether
    the [LOG_*] macros of [lib/logger.h], which is not part of this file,
    are compiled in and so evaluate their arguments.

    [create_response] and [append_response] are the two response helpers
    of [wander/packet.h], [wander_create_response(packet, response,
    seq_nr)] and [wander_append_response(ret_packet, response, seq_nr)].
    Their bodies are not part of this file, so they are whatever functions
    of their three arguments the rest of the program provides: the packet
    they are given, the bytes at the buffer they are given and the
    sequence number; the second returns the response as it leaves it.

    [stray i] is what a read of element [i] beyond the end of a path
    array finds in memory. *)
Record bridge_env : Type := {
  socket_ret : Z;
  connect_ret : Z;
  send_ret : Z;
  recv_script : list recv_result;
  running : nat -> bool;
  bridge_alloc : wander_internal_packet;
  logging : bool;
  create_response : wander_packet -> list u8 -> Z -> wander_packet;
  append_response : wander_packet -> list u8 -> Z -> wander_packet;
  stray : Z -> Z
}.

(** Array read [a[i]] as the compiled code makes it, without a bounds
    test: the element when there is one, otherwise what lies there. *)
Definition read_array (env : bridge_env) (a : list Z) (i : Z) : Z :=
  default (stray env i) (index a i).

(** A [LOG_*] call whose arguments read through the pointer [o].  The
    message itself is not part of the model. *)
Definition log_deref {R A} (env : bridge_env) (o : option A) : M R unit :=
  if logging env then (_ <- deref o ;; ret tt)%c else ret tt.

(** [recv] stores what it received at the start of the buffer and leaves
    the rest as it was. *)
Definition recv_store (buf : list u8) (r : recv_result) : list u8 :=
  recv_data r ++ drop (length (recv_data r)) buf.

(** The locals the receive loop updates. *)
Record loop_state : Type := {
  response : list u8;
  seq_nr : Z;
  ret_packet : option wander_packet
}.

(** [u8 response[UINT16_MAX]; memset(response, 0, UINT16_MAX);] *)
Definition response_init : list u8 := replicate (Z.to_nat UINT16_MAX) Byte.x00.

(** The size [recv] is asked for. *)
Definition recv_cap : Z := UINT16_MAX - 1.

(** One pass through the loop body, lines 76 to 83.  The helpers are
    given the buffer [response] as the read left it, all of it: the count
    [recv] returned is not kept, and the bytes an earlier, longer read
    stored are still there. *)
Definition loop_body {R}
    (create append : wander_packet -> list u8 -> Z -> wander_packet)
    (internal_payload : wander_packet) (r : recv_result)
    (st : loop_state) : M R loop_state :=
  let response' := recv_store (response st) r in
  (ret_packet' <-
     (if seq_nr st =? 0
      then ret (create internal_payload response' (seq_nr st))
      else (p <- deref (ret_packet st) ;;
            ret (append p response' (seq_nr st)))) ;;
   ret {| response := response';
          seq_nr := u32_incr (seq_nr st);
          ret_packet := Some ret_packet' |})%c.

(** [while (node->running && recv(ext_sockfd, response, UINT16_MAX - 1, 0) > 0)].
    [i] counts the tests of the condition. *)
Fixpoint recv_loop {R} (run_flag : nat -> bool)
    (create append : wander_packet -> list u8 -> Z -> wander_packet)
    (ext_sockfd : Z)
    (internal_payload : wander_packet) (script : list recv_result) (i : nat)
    (st : loop_state) : M R loop_state :=
  if run_flag i then
    match script with
    | [] => (emit (EvRecv ext_sockfd recv_cap (RecvBytes [])) ;; ret st)%c
    | r :: script' =>
        (emit (EvRecv ext_sockfd recv_cap r) ;;
         if 0 <? recv_ret r then
           (st' <- loop_body create append internal_payload r st ;;
            recv_loop run_flag create append ext_sockfd internal_payload script' (S i) st')
         else ret st)%c
    end
  else ret st.

(** Lines 69 to 84: the buffer, the counter and the response pointer are
    initialised and the loop runs. *)
Definition receive_response {R} (env : bridge_env) (ext_sockfd : Z)
    (internal_payload : wander_packet) : M R loop_state :=
  recv_loop (running env) (create_response env) (append_response env)
    ext_sockfd internal_payload (recv_script env) 0
    {| response := response_init; seq_nr := 0; ret_packet := None |}.

Definition handle_send_external_body (env : bridge_env) (nd : node_t)
    (packet : wander_internal_packet) : M bool bool :=
  (log_deref env (ipayload packet) ;;                          (* line 38 *)
   let ext_sockfd := socket_ret env in
   emit (EvSocket ext_sockfd) ;;                                (* line 41 *)
   (if ext_sockfd <? 0 then return_ false else ret tt) ;;
   internal_payload <- deref (ipayload packet) ;;               (* line 49 *)
   emit (EvConnect ext_sockfd (dest_ipv4 internal_payload) (dest_port internal_payload)) ;;
   (if connect_ret env <? 0 then return_ false else ret tt) ;;
   let buf := if is_response packet
              then WholePacket internal_payload else InnerPayload internal_payload in
   let n := if is_response packet
            then ipayload_len packet else payload_len internal_payload in
   emit (EvSend ext_sockfd buf n) ;;
   (if send_ret env <? 0 then return_ false else ret tt) ;;
   (if negb (is_response packet) then
      (opr <- deref (pr packet) ;;
       let reversed := reverse_route (path opr) (len opr) in
       st <- receive_response env ext_sockfd internal_payload ;;
       let internal_packet := wander_internal_from_external (bridge_alloc env) (ret_packet st) in
       let origin := read_array env (path opr) 0 in             (* line 93 *)
       let internal_packet :=
         {| ipayload := ipayload internal_packet;
            pr := Some {| path := reversed; len := len opr; step := 1 |};
            prev_node_id := node_id nd;
            dest_node_id := origin;
            is_response := true;
            ipayload_len := ipayload_len internal_packet |} in
       log_deref env (ret_packet st) ;;                        (* line 96 *)
       let next := read_array env reversed 1 in                (* line 102 *)
       emit (EvSendFunc internal_packet next))
    else ret tt) ;;
   emit (EvPacketRouteFree (pr packet)) ;;                      (* line 105 *)
   emit (EvClose ext_sockfd) ;;                                 (* line 107 *)
   ret true)%c.

Definition handle_send_external (env : bridge_env) (nd : node_t)
    (packet : wander_internal_packet) : trace * option bool :=
  run (handle_send_external_body env nd packet).

(** ** The listener side: [handle_external] *)

(** What the world answers during one call: what [recv] on the accepted
    connection returns and the packet it leaves in the buffer, the random
    draw of [get_random_route], the record [wander_internal_from_external]
    allocates, and the outcome of [use_packet_route] and [send_bogo]
    together with the packet as they leave it (both receive a pointer and
    may update the packet in place). *)
Record external_env : Type := {
  bytes_read : Z;
  received : wander_packet;
  route_choice : nat;
  external_alloc : wander_internal_packet;
  use_packet_route : wander_internal_packet -> node_t -> bool * wander_internal_packet;
  send_bogo : wander_internal_packet -> node_t -> bool * wander_internal_packet
}.

Definition set_pr (p : wander_internal_packet) (r : packet_route_t) : wander_internal_packet :=
  {| ipayload := ipayload p;
     pr := Some r;
     prev_node_id := prev_node_id p;
     dest_node_id := dest_node_id p;
     is_response := is_response p;
     ipayload_len := ipayload_len p |}.

Definition set_prev_node_id (p : wander_internal_packet) (n : Z) : wander_internal_packet :=
  {| ipayload := ipayload p;
     pr := pr p;
     prev_node_id := n;
     dest_node_id := dest_node_id p;
     is_response := is_response p;
     ipayload_len := ipayload_len p |}.

(** Lines 147 to 149 and 159 to 162: one [send_bogo], then
    [propagate_failure] if it did not come through. *)
Definition bogo_then_propagate {R} (env : external_env) (nd : node_t)
    (internal_packet : wander_internal_packet) : M R unit :=
  (emit (EvSendBogo internal_packet (node_id nd)) ;;
   let '(came_through, internal_packet) := send_bogo env internal_packet nd in
   if negb came_through
   then emit (EvPropagateFailure internal_packet (node_id nd))
   else ret tt)%c.

(** The label [cleanup]. *)
Definition cleanup {R} (data : external_request_thread_data_t) : M R unit :=
  (emit (EvShutdown (connection data)) ;;
   emit (EvClose (connection data)) ;;
   emit (EvFree (connection data)))%c.

(** Lines 133 and 134: the received packet wrapped for routing. *)
Definition external_packet (env : external_env) (nd : node_t) : wander_internal_packet :=
  set_prev_node_id
    (wander_internal_from_external (external_alloc env) (Some (received env)))
    (node_id nd).

Definition handle_external_body (env : external_env)
    (data : external_request_thread_data_t) : M unit unit :=
  (let nd := node data in
   emit (EvRecvPacket (connection data) (bytes_read env)) ;;
   (if bytes_read env <=? 0 then ret tt                          (* goto cleanup *)
    else
      let internal_packet := external_packet env nd in
      if negb (route_table_empty (routing_table nd)) then
        (route <- deref (get_random_route (routing_table nd) (route_choice env)) ;;
         emit (EvRouteSleep route) ;;
         let internal_packet := set_pr internal_packet (route_to_packet_route route) in
         emit (EvUsePacketRoute internal_packet (node_id nd)) ;;
         let '(came_through, internal_packet) := use_packet_route env internal_packet nd in
         if came_through then return_ tt                        (* line 145 *)
         else bogo_then_propagate env nd internal_packet)
      else
        let internal_packet :=
          set_pr internal_packet {| path := [node_id nd]; len := 1; step := 0 |} in
        bogo_then_propagate env nd internal_packet) ;;
   cleanup data)%c.

Definition handle_external (env : external_env)
    (data : external_request_thread_data_t) : trace * option unit :=
  run (handle_external_body env data).

(** ** Reading a trace *)

(** The chunks the receive loop was given: the data of every [recv] that
    returned a positive count. *)
Definition chunks_read (t : trace) : list (list u8) :=
  flat_map (fun e => match e with
                     | EvRecv _ _ r => if 0 <? recv_ret r then [recv_data r] else []
                     | _ => []
                     end) t.

(** The sizes [recv] was asked for. *)
Definition recv_requests (t : trace) : list Z :=
  flat_map (fun e => match e with EvRecv _ cap _ => [cap] | _ => [] end) t.

(** The calls of [send]: descriptor, buffer and length. *)
Definition sends (t : trace) : list (Z * send_buf * Z) :=
  flat_map (fun e => match e with EvSend fd b n => [(fd, b, n)] | _ => [] end) t.

(** The calls of the node's [send_func]. *)
Definition send_func_calls (t : trace) : list (wander_internal_packet * Z) :=
  flat_map (fun e => match e with EvSendFunc p n => [(p, n)] | _ => [] end) t.

Definition use_packet_route_calls (t : trace) : list wander_internal_packet :=
  flat_map (fun e => match e with EvUsePacketRoute p _ => [p] | _ => [] end) t.

Definition send_bogo_calls (t : trace) : list wander_internal_packet :=
  flat_map (fun e => match e with EvSendBogo p _ => [p] | _ => [] end) t.

Definition propagate_failure_calls (t : trace) : list wander_internal_packet :=
  flat_map (fun e => match e with EvPropagateFailure p _ => [p] | _ => [] end) t.

(** Releases: [packet_route_free], [shutdown], [close] and [free]. *)
Definition releases (t : trace) : trace :=
  flat_map (fun e => match e with
                     | EvPacketRouteFree _ | EvShutdown _ | EvClose _ | EvFree _ => [e]
                     | _ => []
                     end) t.

(** The bytes a [send] transmits, given the memory image [flat] of a
    packet structure. *)
Definition sent_bytes (flat : wander_packet -> list u8) (b : send_buf) (n : Z) : list u8 :=
  match b with
  | InnerPayload wp => take (Z.to_nat n) (payload wp)
  | WholePacket wp => take (Z.to_nat n) (flat wp)
  end.

(** An event of the receive loop. *)
Definition is_recv (e : event) : Prop :=
exists fd r, e = EvRecv fd recv_cap r.

(** A [recv] that asks for [UINT16_MAX - 1] bytes, or any other event. *)
Definition bounded_recv (e : event) : Prop :=
  match e with
  | EvRecv _ cap _ => cap = UINT16_MAX - 1
  | _ => True
  end.

(** The buffer and the length [send] is given, lines 59 and 60. *)
Definition send_event (env : bridge_env) (packet : wander_internal_packet)
    (wp : wander_packet) : event :=
  EvSend (socket_ret env)
    (if is_response packet then WholePacket wp else InnerPayload wp)
    (if is_response packet then ipayload_len packet else payload_len wp).

(** The return packet of lines 85 to 94. *)
Definition return_packet (env : bridge_env) (nd : node_t) (opr : packet_route_t)
    (st : loop_state) (origin : Z) : wander_internal_packet :=
  {| ipayload := ret_packet st;
     pr := Some {| path := reverse_route (path opr) (len opr); len := len opr; step := 1 |};
     prev_node_id := node_id nd;
     dest_node_id := origin;
     is_response := true;
     ipayload_len := ipayload_len (bridge_alloc env) |}.

(** What build-then-append leaves for the chunks [cs]: no packet when
    nothing was read, otherwise a packet whose payload is the chunks in
    order and whose length is the sum of theirs. *)
Definition response_of (cs : list (list u8)) (o : option wander_packet) : Prop :=
  match cs with
  | [] => o = None
  | _ :: _ =>
      exists p, o = Some p
        /\ payload p = concat cs
        /\ payload_len p = Z.of_nat (sum_list (length <$> cs))
        /\ length (payload p) = sum_list (length <$> cs)
  end.

(** ** Sample inputs *)

Definition sample_request : wander_packet :=
  {| dest_ipv4 := "93.184.216.34";
     dest_port := 80;
     payload := [Byte.x47; Byte.x45; Byte.x54];
     payload_len := 3 |}.

Definition sample_alloc : wander_internal_packet :=
  {| ipayload := None;
     pr := None;
     prev_node_id := 0;
     dest_node_id := 0;
     is_response := false;
     ipayload_len := 0 |}.

(** The forward packet of the spec's scenario, arriving at node 9 along
    the path 1, 2, 5, 9. *)
Definition sample_forward : wander_internal_packet :=
  {| ipayload := Some sample_request;
     pr := Some {| path := [1; 2; 5; 9]; len := 4; step := 3 |};
     prev_node_id := 5;
     dest_node_id := 9;
     is_response := false;
     ipayload_len := 0 |}.

Definition sample_node : node_t := {| node_id := 9; routing_table := [] |}.

(** Response helpers for the sample runs only: they stand for no code of
    the repository, and every theorem below holds whatever helpers the
    environment provides.  Given only the buffer, they take it for a
    NUL-terminated string. *)
Fixpoint c_string (buf : list u8) : list u8 :=
  match buf with
  | [] => []
  | b :: rest => if Byte.eqb b Byte.x00 then [] else b :: c_string rest
  end.

Definition c_string_create (from : wander_packet) (buf : list u8) (seq_nr : Z)
  : wander_packet :=
  {| dest_ipv4 := dest_ipv4 from;
     dest_port := dest_port from;
     payload := c_string buf;
     payload_len := Z.of_nat (length (c_string buf)) |}.

Definition c_string_append (resp : wander_packet) (buf : list u8) (seq_nr : Z)
  : wander_packet :=
  {| dest_ipv4 := dest_ipv4 resp;
     dest_port := dest_port resp;
     payload := payload resp ++ c_string buf;
     payload_len := payload_len resp + Z.of_nat (length (c_string buf)) |}.

(** The spec's scenario: the peer answers in two chunks and closes. *)
Definition sample_chunk0 : list u8 :=
  [Byte.x48; Byte.x54; Byte.x54; Byte.x50; Byte.x2f; Byte.x31; Byte.x2e; Byte.x31;
   Byte.x20; Byte.x32; Byte.x30; Byte.x30].

Definition sample_chunk1 : list u8 :=
  [Byte.x20; Byte.x4f; Byte.x4b; Byte.x0d; Byte.x0a].

Definition sample_env : bridge_env :=
  {| socket_ret := 3;
     connect_ret := 0;
     send_ret := 3;
     recv_script := [RecvBytes sample_chunk0; RecvBytes sample_chunk1];
     running := fun _ => true;
     bridge_alloc := sample_alloc;
     logging := true;
     create_response := c_string_create;
     append_response := c_string_append;
     stray := fun _ => 0 |}.

(** The destination refuses the connection. *)
Definition refused_env : bridge_env :=
  {| socket_ret := 3;
     connect_ret := -1;
     send_ret := 0;
     recv_script := [];
     running := fun _ => true;
     bridge_alloc := sample_alloc;
     logging := true;
     create_response := c_string_create;
     append_response := c_string_append;
     stray := fun _ => 0 |}.

(** The peer accepts the request and closes without answering; logging
    is compiled out. *)
Definition silent_env : bridge_env :=
  {| socket_ret := 3;
     connect_ret := 0;
     send_ret := 3;
     recv_script := [];
     running := fun _ => true;
     bridge_alloc := sample_alloc;
     logging := false;
     create_response := c_string_create;
     append_response := c_string_append;
     stray := fun _ => 0 |}.


(** A peer whose answer arrives as the reads [script], seen through the
    response helpers [create] and [append]. *)
Definition stream_env
    (create append : wander_packet -> list u8 -> Z -> wander_packet)
    (script : list recv_result) : bridge_env :=
  {| socket_ret := 3;
     connect_ret := 0;
     send_ret := 3;
     recv_script := script;
     running := fun _ => true;
     bridge_alloc := sample_alloc;
     logging := false;
     create_response := create;
     append_response := append;
     stray := fun _ => 0 |}.

(** What the receive loop makes of such an answer. *)
Definition answer
    (create append : wander_packet -> list u8 -> Z -> wander_packet)
    (wp : wander_packet) (script : list recv_result) : M bool loop_state :=
  receive_response (stream_env create append script) 3 wp.

(** Three short reads, "AB", "C" and "CB", and the buffer as a read of
    [d] into the zeroed buffer leaves it. *)
Definition chunk_AB : list u8 := [Byte.x41; Byte.x42].
Definition chunk_C : list u8 := [Byte.x43].
Definition chunk_CB : list u8 := [Byte.x43; Byte.x42].

Definition buffer_of (d : list u8) : list u8 := d ++ drop (length d) response_init.

(** An answer of [2 ^ 32] one-byte reads and then one more. *)
Definition u32_range : nat := Z.to_nat (2 ^ 32).

Definition long_script : list recv_result :=
  replicate u32_range (RecvBytes [Byte.x41]) ++ [RecvBytes [Byte.x42]].

(** A request arrives; neither the chosen route nor the random neighbour
    takes the packet. *)
Definition failing_env : external_env :=
  {| bytes_read := 64;
     received := sample_request;
     route_choice := 0;
     external_alloc := sample_alloc;
     use_packet_route := fun p _ => (false, p);
     send_bogo := fun p _ => (false, p) |}.

(** A request arrives and the first attempt delivers it. *)
Definition delivering_env : external_env :=
  {| bytes_read := 64;
     received := sample_request;
     route_choice := 0;
     external_alloc := sample_alloc;
     use_packet_route := fun p _ => (true, p);
     send_bogo := fun p _ => (true, p) |}.

(** Node 1 with one known route, and node 1 with none. *)
Definition routed_data : external_request_thread_data_t :=
  {| node := {| node_id := 1;
                routing_table := [{| route_path := [1; 2; 5; 9]; route_delay := 10 |}] |};
     connection := 7 |}.

Definition isolated_data : external_request_thread_data_t :=
  {| node := {| node_id := 1; routing_table := [] |};
     connection := 7 |}.

(** A forward packet whose payload pointer is NULL. *)
Definition null_packet : wander_internal_packet :=
  {| ipayload := None;
     pr := Some {| path := [1; 2; 5; 9]; len := 4; step := 3 |};
     prev_node_id := 5;
     dest_node_id := 9;
     is_response := false;
     ipayload_len := 0 |}.

(** A forward packet carrying the one-element route [handle_external]
    builds for a node without routes. *)
Definition single_hop_packet : wander_internal_packet :=
  {| ipayload := Some sample_request;
     pr := Some {| path := [9]; len := 1; step := 0 |};
     prev_node_id := 9;
     dest_node_id := 0;
     is_response := false;
     ipayload_len := 0 |}.

(** The peer sends one chunk and then the read fails. *)
Definition broken_env : bridge_env :=
  {| socket_ret := 3;
     connect_ret := 0;
     send_ret := 3;
     recv_script := [RecvBytes sample_chunk0; RecvError; RecvBytes sample_chunk1];
     running := fun _ => true;
     bridge_alloc := sample_alloc;
     logging := true;
     create_response := c_string_create;
     append_response := c_string_append;
     stray := fun _ => 0 |}.

(** The accepted connection is closed before a packet arrives. *)
Definition closed_env : external_env :=
  {| bytes_read := 0;
     received := sample_request;
     route_choice := 0;
     external_alloc := sample_alloc;
     use_packet_route := fun p _ => (true, p);
     send_bogo := fun p _ => (true, p) |}.

(** ** Further readings of a trace *)

(** An event that names a socket descriptor names [fd]. *)
Definition on_descriptor (fd : Z) (e : event) : Prop :=
  match e with
  | EvSocket f | EvConnect f _ _ | EvSend f _ _ | EvRecv f _ _ | EvClose f => f = fd
  | _ => True
  end.

(** The routes [route_sleep] waited for. *)
Definition route_sleeps (t : trace) : list route_t :=
  flat_map (fun e => match e with EvRouteSleep r => [r] | _ => [] end) t.

(** The calls of [connect]. *)
Definition connects (t : trace) : list (Z * string * Z) :=
  flat_map (fun e => match e with EvConnect fd ip port => [(fd, ip, port)] | _ => [] end) t.

(** * Properties *)

(** ** Array reads *)

Lemma read_array_some (env : bridge_env) (a : list Z) (i x : Z) :
  index a i = Some x -> read_array env a i = x.
Proof. intros Hx. unfold read_array. by rewrite Hx. Qed.

Lemma index_lookup (a : list Z) (i : Z) : 0 <= i -> index a i = a !! Z.to_nat i.
Proof.
  intros Hi. unfold index. by destruct (Z.ltb_spec i 0); [lia |].
Qed.

(** ** [reverse_route] *)

Lemma reverse_route_full (p : list Z) (n : Z) :
  Z.of_nat (length p) = n -> reverse_route p n = reverse p.
Proof.
  intros Hn. unfold reverse_route. rewrite take_ge; [done | lia].
Qed.

Lemma reverse_route_length (p : list Z) (n : Z) :
  Z.of_nat (length p) = n -> Z.of_nat (length (reverse_route p n)) = n.
Proof.
  intros Hn. by rewrite (reverse_route_full p n Hn), length_reverse.
Qed.

Lemma reverse_route_index (p : list Z) (n i : Z) :
  Z.of_nat (length p) = n -> 0 <= i < n ->
  index (reverse_route p n) i = index p (n - 1 - i).
Proof.
  intros Hn Hi. rewrite (reverse_route_full p n Hn).
  rewrite !index_lookup by lia.
  rewrite reverse_lookup by lia.
  f_equal. lia.
Qed.

(** C4.  For a path of [n >= 1] elements stored at address [a],
    [reverse_route] yields [n] elements, the first being the last of the
    path and the last being its first, element [i] being element
    [n - 1 - i] of the path; reversing twice gives the path back; and the
    result lives at an address that was not allocated before, the path
    itself staying in place. *)
Theorem reverse_route_reverses (P : list Z) (n : Z)
    (h : gmap positive (list Z)) (a : positive) :
  1 <= n ->
  Z.of_nat (length P) = n ->
  h !! a = Some P ->
  Z.of_nat (length (reverse_route P n)) = n
  /\ index (reverse_route P n) 0 = index P (n - 1)
  /\ index (reverse_route P n) (n - 1) = index P 0
  /\ is_Some (index P 0) /\ is_Some (index P (n - 1))
  /\ (forall i, 0 <= i < n -> index (reverse_route P n) i = index P (n - 1 - i))
  /\ reverse_route (reverse_route P n) n = P
  /\ exists b h',
       reverse_route_alloc h a n = Some (b, h')
       /\ h !! b = None
       /\ h' !! b = Some (reverse_route P n)
       /\ h' !! a = Some P.
Proof.
  intros Hpos Hlen Ha.
  assert (Hrlen := reverse_route_length P n Hlen).
  repeat split.
  - exact Hrlen.
  - rewrite reverse_route_index by lia. f_equal. lia.
  - rewrite reverse_route_index by lia. f_equal. lia.
  - rewrite index_lookup by lia. apply lookup_lt_is_Some. lia.
  - rewrite index_lookup by lia. apply lookup_lt_is_Some. lia.
  - intros i Hi. by apply reverse_route_index.
  - rewrite (reverse_route_full _ n Hrlen), (reverse_route_full P n Hlen).
    apply reverse_involutive.
  - unfold reverse_route_alloc. rewrite Ha.
    set (b := fresh (dom h)).
    assert (Hb : h !! b = None) by (apply not_elem_of_dom, is_fresh).
    exists b, (<[b := reverse_route P n]> h).
    repeat split; [exact Hb | apply lookup_insert_eq |].
    rewrite lookup_insert_ne; [exact Ha | congruence].
Qed.

Lemma reverse_route_reverses_witness :
  Z.of_nat (length (reverse_route [1; 2; 5; 9] 4)) = 4
  /\ index (reverse_route [1; 2; 5; 9] 4) 0 = index [1; 2; 5; 9] (4 - 1)
  /\ reverse_route (reverse_route [1; 2; 5; 9] 4) 4 = [1; 2; 5; 9].
Proof.
  destruct (reverse_route_reverses [1; 2; 5; 9] 4 {[ 1%positive := [1; 2; 5; 9] ]} 1%positive)
    as (Hl & H0 & _ & _ & _ & _ & Hinv & _).
  - lia.
  - reflexivity.
  - reflexivity.
  - exact (conj Hl (conj H0 Hinv)).
Defined.

(** ** The control-flow monad *)

Lemma bind_trace {R A B} (m : M R A) (k : A -> M R B) :
  (bind m k).1 = m.1 ++ match m.2 with Next a => (k a).1 | _ => [] end.
Proof.
  destruct m as [t [a | r |]]; simpl; rewrite ?app_nil_r; try done.
  by destruct (k a).
Qed.

Lemma run_trace {R} (m : M R R) : (run m).1 = m.1.
Proof. by destruct m as [t [a | r |]]. Qed.

(** ** The receive loop *)

Section Loop.
Context {R : Type}.
Variable run_flag : nat -> bool.
Variable create append : wander_packet -> list u8 -> Z -> wander_packet.
Variable ext_sockfd : Z.
Variable internal_payload : wander_packet.

Local Abbreviation loop :=
  (recv_loop (R := R) run_flag create append ext_sockfd internal_payload).
Local Abbreviation body := (loop_body (R := R) create append internal_payload).

Lemma loop_body_first (r : recv_result) (st : loop_state) :
  seq_nr st = 0 ->
  body r st =
  ([], Next {| response := recv_store (response st) r;
               seq_nr := u32_incr (seq_nr st);
               ret_packet :=
                 Some (create internal_payload (recv_store (response st) r)
                         (seq_nr st)) |}).
Proof. intros H0. unfold loop_body. by rewrite H0. Qed.

Lemma loop_body_later (r : recv_result) (st : loop_state) (p : wander_packet) :
  seq_nr st <> 0 ->
  ret_packet st = Some p ->
  body r st =
  ([], Next {| response := recv_store (response st) r;
               seq_nr := u32_incr (seq_nr st);
               ret_packet :=
                 Some (append p (recv_store (response st) r) (seq_nr st)) |}).
Proof.
  intros Hne Hp. unfold loop_body.
  destruct (Z.eqb_spec (seq_nr st) 0) as [? | _]; [done |].
  by rewrite Hp.
Qed.

Lemma recv_loop_stopped (script : list recv_result) (i : nat) (st : loop_state) :
  run_flag i = false -> loop script i st = ([], Next st).
Proof. intros Hr. destruct script; simpl; by rewrite Hr. Qed.

Lemma recv_loop_closed (i : nat) (st : loop_state) :
  run_flag i = true ->
  loop [] i st = ([EvRecv ext_sockfd recv_cap (RecvBytes [])], Next st).
Proof. intros Hr. simpl. by rewrite Hr. Qed.

Lemma recv_loop_end (r : recv_result) (script : list recv_result) (i : nat)
    (st : loop_state) :
  run_flag i = true -> recv_ret r <= 0 ->
  loop (r :: script) i st = ([EvRecv ext_sockfd recv_cap r], Next st).
Proof.
  intros Hr Hret. simpl. rewrite Hr.
  by destruct (Z.ltb_spec 0 (recv_ret r)); [lia |].
Qed.

Lemma recv_loop_step (r : recv_result) (script : list recv_result) (i : nat)
    (st st' : loop_state) :
  run_flag i = true -> 0 < recv_ret r ->
  body r st = ([], Next st') ->
  loop (r :: script) i st =
  (EvRecv ext_sockfd recv_cap r :: (loop script (S i) st').1, (loop script (S i) st').2).
Proof.
  intros Hr Hret Hbody. simpl. rewrite Hr.
  destruct (Z.ltb_spec 0 (recv_ret r)); [| lia].
  rewrite Hbody. simpl. by destruct (recv_loop _ _ _ _ _ script (S i) st').
Qed.

(** Every event of the loop is a [recv] of [UINT16_MAX - 1] bytes. *)
Lemma recv_loop_events (script : list recv_result) :
  forall i st, Forall is_recv (loop script i st).1.
Proof.
  induction script as [| r script IH]; intros i st.
  - destruct (run_flag i) eqn:Hr.
    + rewrite recv_loop_closed by done. repeat constructor. by eexists _, _.
    + rewrite recv_loop_stopped by done. constructor.
  - destruct (run_flag i) eqn:Hr; [| rewrite recv_loop_stopped by done; constructor].
    cbn [recv_loop]. rewrite Hr, bind_trace. cbn [emit fst snd app].
    constructor; [by eexists _, _ |].
    destruct (0 <? recv_ret r); [| constructor].
    rewrite bind_trace.
    assert (Hb : (body r st).1 = []).
    { unfold loop_body. destruct (seq_nr st =? 0); [done |].
      by destruct (ret_packet st). }
    rewrite Hb. simpl.
    destruct (body r st).2; [apply IH | constructor ..].
Qed.

(** The loop never leaves the function, and cannot dereference a NULL
    response as long as a response exists whenever the counter is not
    zero.  A response exists at the end if one existed at the start or a
    chunk has been read. *)
Lemma recv_loop_continues (script : list recv_result) :
  forall i st,
    (seq_nr st <> 0 -> is_Some (ret_packet st)) ->
    exists st',
      (loop script i st).2 = Next st'
      /\ (is_Some (ret_packet st) \/ chunks_read (loop script i st).1 <> [] ->
          is_Some (ret_packet st')).
Proof.
  induction script as [| r script IH]; intros i st Hinv.
  - destruct (run_flag i) eqn:Hr.
    + rewrite recv_loop_closed by done. exists st. by split; [| intros [? | ?]].
    + rewrite recv_loop_stopped by done. exists st. by split; [| intros [? | ?]].
  - destruct (run_flag i) eqn:Hr;
      [| rewrite recv_loop_stopped by done; exists st; by split; [| intros [? | ?]]].
    destruct (Z.lt_ge_cases 0 (recv_ret r)) as [Hpos | Hle].
    2:{ rewrite recv_loop_end by (done || lia). exists st. split; [done |].
        intros [? | Hread]; [done |]. revert Hread. unfold chunks_read. simpl.
        by destruct (Z.ltb_spec 0 (recv_ret r)); [lia |]. }
    assert (Hbody : exists st1,
      body r st = ([], Next st1)
      /\ is_Some (ret_packet st1)).
    { destruct (Z.eq_dec (seq_nr st) 0) as [H0 | Hne].
      - eexists. split; [by apply loop_body_first |]. simpl. by eauto.
      - destruct (Hinv Hne) as [p Hp].
        eexists. split; [by apply loop_body_later |]. simpl. by eauto. }
    destruct Hbody as (st1 & Hbody & Hsome1).
    rewrite (recv_loop_step r script i st st1) by done. cbn [fst snd].
    destruct (IH (S i) st1 (fun _ => Hsome1)) as (st' & Hflow & Hsome').
    exists st'. split; [done |]. intros _. apply Hsome'. by left.
Qed.

Lemma chunks_read_recv (fd cap : Z) (r : recv_result) (t : trace) :
  0 < recv_ret r ->
  chunks_read (EvRecv fd cap r :: t) = recv_data r :: chunks_read t.
Proof.
  intros Hpos. unfold chunks_read. simpl.
  by destruct (Z.ltb_spec 0 (recv_ret r)); [| lia].
Qed.

(** A run of [n] equal successful reads, with the node running
    throughout, advances the counter by [n] modulo [2 ^ 32]. *)
Lemma recv_loop_replicate (r : recv_result) (rest : list recv_result) (n : nat) :
  (forall j, run_flag j = true) ->
  0 < recv_ret r ->
  forall i st,
    0 <= seq_nr st < 2 ^ 32 ->
    (seq_nr st <> 0 -> is_Some (ret_packet st)) ->
    exists st',
      loop (replicate n r ++ rest) i st =
        (replicate n (EvRecv ext_sockfd recv_cap r) ++ (loop rest (i + n) st').1,
         (loop rest (i + n) st').2)
      /\ seq_nr st' = u32_wrap (seq_nr st + Z.of_nat n)
      /\ (seq_nr st' <> 0 -> is_Some (ret_packet st')).
Proof.
  intros Hrun Hpos.
  induction n as [| n IH]; intros i st Hrange Hinv.
  - exists st. rewrite Nat.add_0_r, Z.add_0_r. cbn [replicate app].
    repeat split; [by destruct (loop rest i st) | | done].
    unfold u32_wrap. by rewrite Z.mod_small.
  - assert (Hbody : exists st1,
      body r st = ([], Next st1)
      /\ seq_nr st1 = u32_incr (seq_nr st) /\ is_Some (ret_packet st1)).
    { destruct (Z.eq_dec (seq_nr st) 0) as [H0 | Hne].
      - eexists. split; [by apply loop_body_first |]. simpl. by eauto.
      - destruct (Hinv Hne) as [p Hp].
        eexists. split; [by apply loop_body_later |]. simpl. by eauto. }
    destruct Hbody as (st1 & Hbody & Hseq1 & Hsome1).
    destruct (IH (S i) st1) as (st' & Heq & Hseq' & Hinv').
    { rewrite Hseq1. unfold u32_incr, u32_wrap. apply Z.mod_pos_bound. lia. }
    { done. }
    exists st'. rewrite replicate_S. cbn [app].
    rewrite (recv_loop_step r _ i st st1) by done.
    rewrite Heq. cbn [fst snd].
    replace (i + S n)%nat with (S i + n)%nat by lia.
    repeat split; [| done].
    rewrite Hseq', Hseq1. unfold u32_incr, u32_wrap.
    rewrite Zplus_mod_idemp_l. f_equal. lia.
Qed.

Lemma chunks_read_replicate (fd cap : Z) (r : recv_result) (n : nat) (t : trace) :
  0 < recv_ret r ->
  chunks_read (replicate n (EvRecv fd cap r) ++ t) =
  replicate n (recv_data r) ++ chunks_read t.
Proof.
  intros Hpos. induction n as [| n IH]; [done |].
  rewrite !replicate_S. cbn [app]. rewrite chunks_read_recv by done.
  by rewrite IH.
Qed.
End Loop.

(** ** C5: what the response helpers are given *)

(** Two successful reads and the end of the stream: what the loop hands
    the helpers and what it is left with. *)
Lemma recv_loop_two_reads {R}
    (create append : wander_packet -> list u8 -> Z -> wander_packet)
    (fd : Z) (wp : wander_packet) (d1 d2 : list u8) (buf : list u8) :
  0 < recv_ret (RecvBytes d1) ->
  0 < recv_ret (RecvBytes d2) ->
  recv_loop (R := R) (fun _ => true) create append fd wp
    [RecvBytes d1; RecvBytes d2] 0
    {| response := buf; seq_nr := 0; ret_packet := None |}
  = ([EvRecv fd recv_cap (RecvBytes d1);
      EvRecv fd recv_cap (RecvBytes d2);
      EvRecv fd recv_cap (RecvBytes [])],
     Next {| response := recv_store (recv_store buf (RecvBytes d1)) (RecvBytes d2);
             seq_nr := 2;
             ret_packet :=
               Some (append (create wp (recv_store buf (RecvBytes d1)) 0)
                       (recv_store (recv_store buf (RecvBytes d1)) (RecvBytes d2))
                       1) |}).
Proof.
  intros Hd1 Hd2.
  erewrite recv_loop_step; [| reflexivity | exact Hd1 | by apply loop_body_first].
  erewrite recv_loop_step;
    [| reflexivity | exact Hd2
     | eapply loop_body_later; [cbn [seq_nr]; discriminate | reflexivity]].
  rewrite recv_loop_closed by reflexivity.
  reflexivity.
Qed.

(** C5.  The response cannot be the concatenation of the chunks read for
    every answer.  When the peer answers "AB" and then "C", the second
    call of the loop body hands the helper the buffer "CB" followed by
    zeros, the B of the first read still in place, with sequence number
    1; it hands it the very same when the peer answers "AB" and then
    "CB".  Whatever the two helpers do with their arguments, both answers
    end with the same response, which cannot be "ABC" for the one and
    "ABCB" for the other. *)
Theorem stale_bytes_reach_the_helpers
    (create append : wander_packet -> list u8 -> Z -> wander_packet)
    (wp : wander_packet) :
  chunks_read (answer create append wp [RecvBytes chunk_AB; RecvBytes chunk_C]).1
    = [chunk_AB; chunk_C]
  /\ chunks_read (answer create append wp [RecvBytes chunk_AB; RecvBytes chunk_CB]).1
    = [chunk_AB; chunk_CB]
  /\ (answer create append wp [RecvBytes chunk_AB; RecvBytes chunk_C]).2
    = Next {| response := buffer_of chunk_CB;
              seq_nr := 2;
              ret_packet :=
                Some (append (create wp (buffer_of chunk_AB) 0) (buffer_of chunk_CB) 1) |}
  /\ (answer create append wp [RecvBytes chunk_AB; RecvBytes chunk_CB]).2
    = (answer create append wp [RecvBytes chunk_AB; RecvBytes chunk_C]).2
  /\ ~ ((exists st,
          (answer create append wp [RecvBytes chunk_AB; RecvBytes chunk_C]).2 = Next st
          /\ response_of [chunk_AB; chunk_C] (ret_packet st))
        /\ (exists st,
            (answer create append wp [RecvBytes chunk_AB; RecvBytes chunk_CB]).2 = Next st
            /\ response_of [chunk_AB; chunk_CB] (ret_packet st))).
Proof.
  assert (Hshort :
    (answer create append wp [RecvBytes chunk_AB; RecvBytes chunk_C]).2
    = Next {| response := buffer_of chunk_CB;
              seq_nr := 2;
              ret_packet :=
                Some (append (create wp (buffer_of chunk_AB) 0) (buffer_of chunk_CB) 1) |})
    by (unfold answer, receive_response; cbn [stream_env running recv_script
          create_response append_response];
        rewrite recv_loop_two_reads by done; reflexivity).
  assert (Hlong :
    (answer create append wp [RecvBytes chunk_AB; RecvBytes chunk_CB]).2
    = (answer create append wp [RecvBytes chunk_AB; RecvBytes chunk_C]).2)
    by (unfold answer, receive_response; cbn [stream_env running recv_script
          create_response append_response];
        rewrite !recv_loop_two_reads by done; reflexivity).
  split.
  { unfold answer, receive_response. cbn [stream_env running recv_script
      create_response append_response].
    by rewrite recv_loop_two_reads. }
  split.
  { unfold answer, receive_response. cbn [stream_env running recv_script
      create_response append_response].
    by rewrite recv_loop_two_reads. }
  split; [exact Hshort |]. split; [exact Hlong |].
  rewrite Hlong, Hshort.
  intros [(st1 & [= <-] & p1 & [= <-] & Hp1 & _) (st2 & [= <-] & p2 & [= <-] & Hp2 & _)].
  rewrite Hp1 in Hp2. discriminate Hp2.
Qed.

(** With helpers that take the buffer for a NUL-terminated string, the
    answer "AB", "C" is passed on as "ABCB". *)
Example stale_bytes_sample :
  exists st p,
    (answer c_string_create c_string_append sample_request
       [RecvBytes chunk_AB; RecvBytes chunk_C]).2 = Next st
    /\ ret_packet st = Some p
    /\ payload p = [Byte.x41; Byte.x42; Byte.x43; Byte.x42].
Proof.
  unfold answer, receive_response. cbn [stream_env running recv_script
    create_response append_response].
  rewrite recv_loop_two_reads by done. cbn [snd ret_packet].
  eexists _, _. split; [reflexivity |]. split; [reflexivity |]. reflexivity.
Qed.

(** The [u32] counter is a second way to lose chunks: after [2 ^ 32] reads
    it is 0 again, the next read is taken for the first one, and the
    response is created anew from that read alone. *)
Lemma response_restarts_when_counter_wraps
    (create append : wander_packet -> list u8 -> Z -> wander_packet)
    (wp : wander_packet) :
  exists st buf,
    (answer create append wp long_script).2 = Next st
    /\ ret_packet st = Some (create wp buf 0)
    /\ Z.of_nat (length (chunks_read (answer create append wp long_script).1)) = 2 ^ 32 + 1.
Proof.
  unfold answer, receive_response, long_script.
  cbn [running recv_script create_response append_response stream_env].
  assert (Hrange : Z.of_nat u32_range = 2 ^ 32).
  { unfold u32_range. apply Z2Nat.id. lia. }
  generalize dependent u32_range. intros n Hrange.
  destruct (recv_loop_replicate (R := bool) (fun _ => true) create append 3 wp
              (RecvBytes [Byte.x41]) [RecvBytes [Byte.x42]] n
              (fun _ => eq_refl) eq_refl 0
              {| response := response_init; seq_nr := 0; ret_packet := None |})
    as (st' & Heq & Hseq & _); [cbn [seq_nr]; lia | intros Hne; by destruct Hne |].
  assert (H0 : seq_nr st' = 0).
  { rewrite Hseq. cbn [seq_nr]. rewrite Hrange. reflexivity. }
  rewrite Heq. cbn [fst snd].
  rewrite (recv_loop_step (fun _ => true) create append 3 wp (RecvBytes [Byte.x42]) []
             (0 + n) st' _ eq_refl eq_refl (loop_body_first _ _ _ _ st' H0)).
  rewrite (recv_loop_closed (fun _ => true) create append 3 wp (S (0 + n)) _ eq_refl).
  cbn [fst snd ret_packet].
  do 2 eexists. split; [reflexivity |]. split; [by rewrite H0 |].
  rewrite (chunks_read_replicate 3 recv_cap (RecvBytes [Byte.x41]) n _ eq_refl).
  rewrite length_app, length_replicate.
  assert (Hlast : chunks_read [EvRecv 3 recv_cap (RecvBytes [Byte.x42]);
                               EvRecv 3 recv_cap (RecvBytes [])] = [[Byte.x42]])
    by reflexivity.
  rewrite Hlast. cbn [length]. lia.
Qed.

(** ** The paths through [handle_send_external] *)

Ltac bridge_tests :=
  repeat match goal with
         | H : ?a < 0 |- context [?a <? 0] =>
             destruct (Z.ltb_spec a 0); [| lia]
         | H : 0 <= ?a |- context [?a <? 0] =>
             destruct (Z.ltb_spec a 0); [lia |]
         end.

Lemma log_deref_some {R A} (env : bridge_env) (a : A) :
  log_deref (R := R) env (Some a) = ret tt.
Proof. unfold log_deref. by destruct (logging env). Qed.

Lemma log_deref_quiet {R A} (env : bridge_env) (o : option A) :
  logging env = false \/ is_Some o ->
  log_deref (R := R) env o = ret tt.
Proof.
  intros [Hoff | [a ->]]; [| apply log_deref_some].
  unfold log_deref. by rewrite Hoff.
Qed.

Lemma bridge_socket_failure (env : bridge_env) (nd : node_t)
    (packet : wander_internal_packet) (wp : wander_packet) :
  socket_ret env < 0 ->
  ipayload packet = Some wp ->
  handle_send_external env nd packet = ([EvSocket (socket_ret env)], Some false).
Proof.
  intros Hs Hwp. unfold handle_send_external, handle_send_external_body.
  rewrite Hwp, log_deref_some.
  cbn [bind emit ret]. by bridge_tests.
Qed.

Lemma bridge_connect_failure (env : bridge_env) (nd : node_t)
    (packet : wander_internal_packet) (wp : wander_packet) :
  0 <= socket_ret env ->
  connect_ret env < 0 ->
  ipayload packet = Some wp ->
  handle_send_external env nd packet =
  ([EvSocket (socket_ret env);
    EvConnect (socket_ret env) (dest_ipv4 wp) (dest_port wp)], Some false).
Proof.
  intros Hs Hc Hwp. unfold handle_send_external, handle_send_external_body.
  rewrite Hwp, log_deref_some.
  cbn [bind emit deref ret]. bridge_tests. cbn. by bridge_tests.
Qed.

Lemma bridge_send_failure (env : bridge_env) (nd : node_t)
    (packet : wander_internal_packet) (wp : wander_packet) :
  0 <= socket_ret env ->
  0 <= connect_ret env ->
  send_ret env < 0 ->
  ipayload packet = Some wp ->
  handle_send_external env nd packet =
  ([EvSocket (socket_ret env);
    EvConnect (socket_ret env) (dest_ipv4 wp) (dest_port wp);
    send_event env packet wp], Some false).
Proof.
  intros Hs Hc Hsend Hwp. unfold handle_send_external, handle_send_external_body.
  rewrite Hwp, log_deref_some.
  cbn [bind emit deref ret]. bridge_tests. cbn. bridge_tests. cbn.
  by bridge_tests.
Qed.

Lemma bridge_deliver_response (env : bridge_env) (nd : node_t)
    (packet : wander_internal_packet) (wp : wander_packet) :
  0 <= socket_ret env ->
  0 <= connect_ret env ->
  0 <= send_ret env ->
  ipayload packet = Some wp ->
  is_response packet = true ->
  handle_send_external env nd packet =
  ([EvSocket (socket_ret env);
    EvConnect (socket_ret env) (dest_ipv4 wp) (dest_port wp);
    send_event env packet wp;
    EvPacketRouteFree (pr packet);
    EvClose (socket_ret env)], Some true).
Proof.
  intros Hs Hc Hsend Hwp Hresp. unfold handle_send_external, handle_send_external_body.
  unfold send_event. rewrite Hwp, Hresp, log_deref_some.
  cbn [bind emit deref ret]. bridge_tests. cbn. bridge_tests. cbn.
  by bridge_tests.
Qed.

Lemma bridge_forward (env : bridge_env) (nd : node_t)
    (packet : wander_internal_packet) (wp : wander_packet) (opr : packet_route_t)
    (tl : trace) (st : loop_state) (origin next : Z) :
  0 <= socket_ret env ->
  0 <= connect_ret env ->
  0 <= send_ret env ->
  ipayload packet = Some wp ->
  is_response packet = false ->
  pr packet = Some opr ->
  receive_response (R := bool) env (socket_ret env) wp = (tl, Next st) ->
  logging env = false \/ is_Some (ret_packet st) ->
  index (path opr) 0 = Some origin ->
  index (reverse_route (path opr) (len opr)) 1 = Some next ->
  handle_send_external env nd packet =
  ([EvSocket (socket_ret env);
    EvConnect (socket_ret env) (dest_ipv4 wp) (dest_port wp);
    send_event env packet wp] ++ tl ++
   [EvSendFunc (return_packet env nd opr st origin) next;
    EvPacketRouteFree (pr packet);
    EvClose (socket_ret env)], Some true).
Proof.
  intros Hs Hc Hsend Hwp Hresp Hpr Hloop Hlog Horigin Hnext.
  unfold handle_send_external, handle_send_external_body, send_event.
  rewrite Hwp, Hresp, Hpr, log_deref_some.
  cbn [bind emit deref ret]. bridge_tests. cbn [bind emit deref ret app]. bridge_tests.
  cbn [bind emit deref ret app]. bridge_tests.
  cbn [negb bind emit deref ret app].
  rewrite Hloop. cbn [bind emit deref ret app].
  rewrite (log_deref_quiet env (ret_packet st) Hlog).
  rewrite (read_array_some env _ _ _ Horigin), (read_array_some env _ _ _ Hnext).
  cbn. by rewrite <- app_assoc.
Qed.

(** ** C8: the size of a read *)

Lemma Forall_bind {R A B} (P : event -> Prop) (m : M R A) (k : A -> M R B) :
  Forall P m.1 ->
  (forall a, Forall P (k a).1) ->
  Forall P (bind m k).1.
Proof.
  intros Hm Hk. rewrite bind_trace. apply Forall_app. split; [done |].
  destruct m.2; [apply Hk | constructor ..].
Qed.

Lemma Forall_emit {R} (P : event -> Prop) (e : event) :
  P e -> Forall P (emit (R := R) e).1.
Proof. intros He. by constructor. Qed.

Lemma Forall_deref {R A} (P : event -> Prop) (o : option A) :
  Forall P (deref (R := R) o).1.
Proof. destruct o; constructor. Qed.

Lemma Forall_log_deref {R A} (P : event -> Prop) (env : bridge_env) (o : option A) :
  Forall P (log_deref (R := R) env o).1.
Proof. unfold log_deref. destruct (logging env), o; constructor. Qed.

Lemma bounded_recv_loop (env : bridge_env) (fd : Z) (wp : wander_packet) :
  Forall bounded_recv (receive_response (R := bool) env fd wp).1.
Proof.
  eapply Forall_impl; [apply recv_loop_events |].
  by intros e (fd' & r & ->).
Qed.

Lemma bounded_recv_body (env : bridge_env) (nd : node_t) (packet : wander_internal_packet) :
  Forall bounded_recv (handle_send_external_body env nd packet).1.
Proof.
  unfold handle_send_external_body.
  repeat first
    [ apply Forall_bind; [| intros ?]
    | apply Forall_emit; exact I
    | apply Forall_deref
    | apply Forall_log_deref
    | apply bounded_recv_loop
    | match goal with
      | |- Forall _ (if ?b then _ else _).1 => destruct b
      end
    | by constructor ].
Qed.

Lemma recv_requests_bounded (t : trace) :
  Forall bounded_recv t -> Forall (fun cap => cap = UINT16_MAX - 1) (recv_requests t).
Proof.
  induction 1 as [| e t He _ IH]; [constructor |].
  destruct e; try exact IH. constructor; [exact He | exact IH].
Qed.

(** C8.  Every [recv] of the response loop asks for [UINT16_MAX - 1]
    bytes, which is at most 65535 and fits the [response] buffer of 65535
    bytes. *)
Theorem recv_chunk_capped (env : bridge_env) (nd : node_t) (packet : wander_internal_packet) :
  Forall (fun cap => cap = UINT16_MAX - 1 /\ cap <= 65535
                     /\ cap <= Z.of_nat (length response_init))
    (recv_requests (handle_send_external env nd packet).1)
  /\ Z.of_nat (length response_init) = 65535.
Proof.
  assert (Hlen : Z.of_nat (length response_init) = 65535).
  { unfold response_init. rewrite length_replicate. unfold UINT16_MAX. lia. }
  split; [| exact Hlen].
  unfold handle_send_external. rewrite run_trace.
  eapply Forall_impl; [apply recv_requests_bounded, bounded_recv_body |].
  intros cap ->. rewrite Hlen. unfold UINT16_MAX. lia.
Qed.

(** A read that respects the size it was asked for leaves the buffer at
    its 65535 bytes. *)
Lemma recv_store_length (buf : list u8) (r : recv_result) :
  Z.of_nat (length buf) = UINT16_MAX ->
  recv_ret r <= recv_cap ->
  Z.of_nat (length (recv_store buf r)) = UINT16_MAX.
Proof.
  intros Hbuf Hcap. unfold recv_store. rewrite length_app, length_drop.
  destruct r as [| d]; unfold recv_cap in Hcap; simpl in *; lia.
Qed.

Example recv_requests_sample :
  recv_requests (handle_send_external sample_env sample_node sample_forward).1
  = [65534; 65534; 65534].
Proof. reflexivity. Qed.

(** ** C6: what is sent to the external socket *)

Lemma recv_only (t : trace) :
  Forall is_recv t ->
  sends t = [] /\ send_func_calls t = [] /\ releases t = [].
Proof.
  induction 1 as [| e t (fd & r & ->) _ (Hs & Hf & Hr)]; [done |].
  by repeat split.
Qed.

Lemma receive_response_recv_only (env : bridge_env) (fd : Z) (wp : wander_packet) :
  Forall is_recv (receive_response (R := bool) env fd wp).1.
Proof. apply recv_loop_events. Qed.

Lemma receive_response_continues (env : bridge_env) (fd : Z) (wp : wander_packet) :
  exists st,
    (receive_response (R := bool) env fd wp).2 = Next st
    /\ (chunks_read (receive_response (R := bool) env fd wp).1 <> [] ->
        is_Some (ret_packet st)).
Proof.
  destruct (recv_loop_continues (R := bool) (running env)
              (create_response env) (append_response env) fd wp (recv_script env) 0
              {| response := response_init; seq_nr := 0; ret_packet := None |})
    as (st & Hflow & Hsome); [done |].
  exists st. split; [exact Hflow |]. intros Hread. apply Hsome. by right.
Qed.

(** Case analysis over every path of the bridge once [socket] and
    [connect] have succeeded. *)
Ltac bridge_paths :=
  repeat first
    [ progress cbn [bind emit ret return_ fault deref run fst snd app negb]
    | progress unfold log_deref
    | match goal with
      | |- context [receive_response ?e ?f ?w] =>
          let tl := fresh "tl" in
          let fl := fresh "fl" in
          let st := fresh "st" in
          let Htl := fresh "Htl" in
          let Hst := fresh "Hst" in
          pose proof (receive_response_recv_only e f w) as Htl;
          destruct (receive_response_continues e f w) as (st & Hst & _);
          destruct (receive_response e f w) as [tl fl];
          cbn [fst snd] in Htl, Hst; subst fl
      | |- context [if ?b then _ else _] => destruct b eqn:?
      | |- context [deref ?o] => destruct o eqn:?
      end ].

(** The events of the receive loop are invisible to the readers of
    [send], [send_func] and the releases. *)
Ltac drop_recvs :=
  repeat match goal with
         | H : Forall is_recv ?t |- _ =>
             let Hs := fresh in
             let Hf := fresh in
             let Hr := fresh in
             destruct (recv_only t H) as (Hs & Hf & Hr); clear H;
             unfold sends, send_func_calls, releases in Hs, Hf, Hr;
             rewrite ?Hs, ?Hf, ?Hr
         end.

(** C6.  Once the connection is up, exactly one [send] is made on the
    external socket.  For a request it is given the inner payload buffer
    and the inner [payload_len]; for a response it is given the packet
    structure itself and the internal packet's [payload_len], so the bytes
    that leave are the first [payload_len] bytes of the flattened packet,
    not its unwrapped payload. *)
Theorem send_selected_by_is_response (env : bridge_env) (nd : node_t)
    (packet : wander_internal_packet) (wp : wander_packet) :
  0 <= socket_ret env ->
  0 <= connect_ret env ->
  ipayload packet = Some wp ->
  exists b n,
    sends (handle_send_external env nd packet).1 = [(socket_ret env, b, n)]
    /\ (is_response packet = false ->
        b = InnerPayload wp /\ n = payload_len wp
        /\ (payload_len wp = Z.of_nat (length (payload wp)) ->
            forall flat, sent_bytes flat b n = payload wp))
    /\ (is_response packet = true ->
        b = WholePacket wp /\ n = ipayload_len packet
        /\ forall flat, sent_bytes flat b n = take (Z.to_nat (ipayload_len packet)) (flat wp)).
Proof.
  intros Hs Hc Hwp.
  exists (if is_response packet then WholePacket wp else InnerPayload wp),
         (if is_response packet then ipayload_len packet else payload_len wp).
  split.
  - unfold handle_send_external, handle_send_external_body.
    rewrite Hwp, log_deref_some.
    apply Z.ltb_ge in Hs, Hc. rewrite Hs, Hc.
    bridge_paths;
      unfold sends; cbn [flat_map app]; rewrite ?flat_map_app;
      drop_recvs; done.
  - split; intros Hresp; rewrite Hresp; repeat split.
    intros Hlen flat. cbn [sent_bytes]. rewrite Hlen, Nat2Z.id. apply firstn_all.
Qed.

Lemma send_selected_by_is_response_witness :
  exists b n,
    sends (handle_send_external sample_env sample_node sample_forward).1 = [(3, b, n)]
    /\ (false = false ->
        b = InnerPayload sample_request /\ n = 3
        /\ (3 = 3 -> forall flat, sent_bytes flat b n = [Byte.x47; Byte.x45; Byte.x54])).
Proof.
  destruct (send_selected_by_is_response sample_env sample_node sample_forward sample_request)
    as (b & n & Hsend & Hreq & _).
  - simpl. lia.
  - simpl. lia.
  - reflexivity.
  - exists b, n. split; [exact Hsend | exact Hreq].
Defined.

(** ** C7: what is released on each path *)

(** The route is freed and the socket closed exactly on the paths that
    reach the end of the function. *)
Lemma bridge_releases (env : bridge_env) (nd : node_t) (packet : wander_internal_packet) :
  releases (handle_send_external env nd packet).1 =
  match (handle_send_external env nd packet).2 with
  | Some true => [EvPacketRouteFree (pr packet); EvClose (socket_ret env)]
  | _ => []
  end.
Proof.
  unfold handle_send_external, handle_send_external_body.
  bridge_paths;
    unfold releases; cbn [flat_map app]; rewrite ?flat_map_app;
    drop_recvs; done.
Qed.

(** C7 at the failing path.  When [socket] has produced a descriptor and
    [connect] fails, the function returns [false] having neither closed
    the descriptor nor freed the packet's route. *)
Theorem connect_failure_releases_nothing (env : bridge_env) (nd : node_t)
    (packet : wander_internal_packet) (wp : wander_packet) :
  0 <= socket_ret env ->
  connect_ret env < 0 ->
  ipayload packet = Some wp ->
  handle_send_external env nd packet =
    ([EvSocket (socket_ret env);
      EvConnect (socket_ret env) (dest_ipv4 wp) (dest_port wp)], Some false)
  /\ releases (handle_send_external env nd packet).1 = []
  /\ ~ EvClose (socket_ret env) ∈ (handle_send_external env nd packet).1
  /\ ~ EvPacketRouteFree (pr packet) ∈ (handle_send_external env nd packet).1.
Proof.
  intros Hs Hc Hwp.
  rewrite (bridge_connect_failure env nd packet wp Hs Hc Hwp). cbn [fst].
  repeat split; try done; intros Hin;
    repeat (apply elem_of_cons in Hin as [Hin | Hin]; [discriminate |]);
    by apply elem_of_nil in Hin.
Qed.

Lemma connect_failure_releases_nothing_witness :
  handle_send_external refused_env sample_node sample_forward =
    ([EvSocket 3; EvConnect 3 "93.184.216.34" 80], Some false)
  /\ releases (handle_send_external refused_env sample_node sample_forward).1 = [].
Proof.
  destruct (connect_failure_releases_nothing refused_env sample_node sample_forward
              sample_request) as (Hrun & Hrel & _).
  - simpl. lia.
  - simpl. lia.
  - reflexivity.
  - exact (conj Hrun Hrel).
Defined.

(** ** C3 and C10: the return packet *)

(** A forward request over a route of at least two hops, once the request
    has been sent, runs to the end, provided a response was read or
    logging is compiled out: the loop result, the origin and the next hop
    all exist. *)
Lemma bridge_forward_runs (env : bridge_env) (nd : node_t)
    (packet : wander_internal_packet) (wp : wander_packet) (opr : packet_route_t) :
  0 <= socket_ret env ->
  0 <= connect_ret env ->
  0 <= send_ret env ->
  ipayload packet = Some wp ->
  is_response packet = false ->
  pr packet = Some opr ->
  Z.of_nat (length (path opr)) = len opr ->
  2 <= len opr ->
  logging env = false
  \/ chunks_read (receive_response (R := bool) env (socket_ret env) wp).1 <> [] ->
  exists tl st origin next,
    receive_response (R := bool) env (socket_ret env) wp = (tl, Next st)
    /\ Forall is_recv tl
    /\ index (path opr) 0 = Some origin
    /\ index (reverse (path opr)) 1 = Some next
    /\ reverse_route (path opr) (len opr) = reverse (path opr)
    /\ handle_send_external env nd packet =
       ([EvSocket (socket_ret env);
         EvConnect (socket_ret env) (dest_ipv4 wp) (dest_port wp);
         send_event env packet wp] ++ tl ++
        [EvSendFunc (return_packet env nd opr st origin) next;
         EvPacketRouteFree (pr packet);
         EvClose (socket_ret env)], Some true).
Proof.
  intros Hs Hc Hsend Hwp Hresp Hpr Hlen Hhops Hlog.
  destruct (receive_response_continues env (socket_ret env) wp) as (st & Hst & Hsome).
  pose proof (receive_response_recv_only env (socket_ret env) wp) as Htl.
  destruct (receive_response env (socket_ret env) wp) as [tl fl] eqn:Hloop.
  cbn [fst snd] in *. subst fl.
  assert (Hrev := reverse_route_full (path opr) (len opr) Hlen).
  destruct (lookup_lt_is_Some_2 (path opr) 0%nat) as [origin Horigin]; [lia |].
  destruct (lookup_lt_is_Some_2 (reverse (path opr)) 1%nat) as [next Hnext];
    [rewrite length_reverse; lia |].
  exists tl, st, origin, next.
  assert (Hi0 : index (path opr) 0 = Some origin) by (by rewrite index_lookup).
  assert (Hi1 : index (reverse (path opr)) 1 = Some next) by (by rewrite index_lookup).
  repeat split; try done.
  apply bridge_forward; try done.
  - destruct Hlog as [Hoff | Hread]; [by left | right; by apply Hsome].
  - by rewrite Hrev.
Qed.

Lemma send_func_calls_forward (pre tl : trace) (p : wander_internal_packet) (next : Z)
    (post : trace) :
  send_func_calls pre = [] ->
  Forall is_recv tl ->
  send_func_calls post = [] ->
  send_func_calls (pre ++ tl ++ EvSendFunc p next :: post) = [(p, next)].
Proof.
  intros Hpre Htl Hpost. unfold send_func_calls in *.
  rewrite !flat_map_app, Hpre. cbn [flat_map app]. rewrite Hpost.
  fold (send_func_calls tl). by destruct (recv_only tl Htl) as (_ & -> & _).
Qed.

(** C3.  A forward request that has been sent and has received a response
    ends with one call of [send_func].  The packet it is given carries the
    reversed route with the same length and [step = 1], has the local node
    as [prev_node_id], the first element of the original path as
    [dest_node_id], and [is_response] set; it is addressed to element
    [step] of the reversed path. *)
Theorem return_packet_built (env : bridge_env) (nd : node_t)
    (packet : wander_internal_packet) (wp : wander_packet) (opr : packet_route_t) :
  0 <= socket_ret env ->
  0 <= connect_ret env ->
  0 <= send_ret env ->
  ipayload packet = Some wp ->
  is_response packet = false ->
  pr packet = Some opr ->
  Z.of_nat (length (path opr)) = len opr ->
  2 <= len opr ->
  chunks_read (receive_response (R := bool) env (socket_ret env) wp).1 <> [] ->
  exists ip next origin reversed,
    send_func_calls (handle_send_external env nd packet).1 = [(ip, next)]
    /\ (handle_send_external env nd packet).2 = Some true
    /\ pr ip = Some {| path := reversed; len := len opr; step := 1 |}
    /\ reversed = reverse (path opr)
    /\ prev_node_id ip = node_id nd
    /\ index (path opr) 0 = Some origin
    /\ dest_node_id ip = origin
    /\ is_response ip = true
    /\ index reversed 1 = Some next.
Proof.
  intros Hs Hc Hsend Hwp Hresp Hpr Hlen Hhops Hread.
  destruct (bridge_forward_runs env nd packet wp opr)
    as (tl & st & origin & next & _ & Htl & Horigin & Hnext & Hrev & ->);
    try done; [by right |].
  exists (return_packet env nd opr st origin), next, origin, (reverse (path opr)).
  cbn [fst snd]. repeat split; try done.
  - by apply send_func_calls_forward.
  - unfold return_packet. cbn [pr]. by rewrite Hrev.
Qed.

Lemma return_packet_built_witness :
  exists ip next,
    send_func_calls (handle_send_external sample_env sample_node sample_forward).1
      = [(ip, next)]
    /\ pr ip = Some {| path := [9; 5; 2; 1]; len := 4; step := 1 |}
    /\ prev_node_id ip = 9
    /\ dest_node_id ip = 1
    /\ is_response ip = true
    /\ next = 5.
Proof.
  destruct (return_packet_built sample_env sample_node sample_forward sample_request
              {| path := [1; 2; 5; 9]; len := 4; step := 3 |})
    as (ip & next & origin & reversed & Hcall & _ & Hpr & -> & Hprev & Horigin & Hdest
        & Hresp & Hnext).
  - simpl. lia.
  - simpl. lia.
  - simpl. lia.
  - reflexivity.
  - reflexivity.
  - reflexivity.
  - reflexivity.
  - simpl. lia.
  - vm_compute. discriminate.
  - exists ip, next. repeat split; try done.
    + rewrite Hdest. by injection Horigin.
    + by injection Hnext.
Defined.




(** ** The paths through [handle_external] *)

Lemma get_random_route_some (rt : list route_t) (choice : nat) :
  route_table_empty rt = false -> is_Some (get_random_route rt choice).
Proof.
  intros Hne. unfold get_random_route. apply lookup_lt_is_Some_2.
  destruct rt as [| r rt]; [done |].
  apply Nat.mod_upper_bound. simpl. lia.
Qed.

(** Case analysis over every path of the listener. *)
Ltac external_paths :=
  repeat first
    [ progress cbn [bind emit ret return_ fault deref run fst snd app negb]
    | match goal with
      | H : route_table_empty ?rt = false
        |- context [get_random_route ?rt ?c] =>
          let route := fresh "route" in
          let Hroute := fresh "Hroute" in
          destruct (get_random_route_some rt c H) as [route Hroute];
          rewrite Hroute
      | |- context [use_packet_route ?e ?p ?n] =>
          let ok := fresh "came_through" in
          let p' := fresh "p" in
          let Huse := fresh "Huse" in
          destruct (use_packet_route e p n) as [ok p'] eqn:Huse
      | |- context [send_bogo ?e ?p ?n] =>
          let ok := fresh "came_through" in
          let p' := fresh "p" in
          let Hbogo := fresh "Hbogo" in
          destruct (send_bogo e p n) as [ok p'] eqn:Hbogo
      | |- context [if ?b then _ else _] => destruct b eqn:?
      end ].

(** C1.  With a packet received and a routing table that is not empty,
    [use_packet_route] is called once; [send_bogo] is called once if it
    failed and not at all otherwise; [propagate_failure] is called once if
    [send_bogo] failed too and not at all otherwise.  Each call receives
    the packet as the previous call left it. *)
Theorem one_bogo_retry (env : external_env) (data : external_request_thread_data_t) :
  0 < bytes_read env ->
  route_table_empty (routing_table (node data)) = false ->
  exists p,
    use_packet_route_calls (handle_external env data).1 = [p]
    /\ send_bogo_calls (handle_external env data).1 =
       (if (use_packet_route env p (node data)).1 then []
        else [(use_packet_route env p (node data)).2])
    /\ propagate_failure_calls (handle_external env data).1 =
       (if (use_packet_route env p (node data)).1 then []
        else if (send_bogo env (use_packet_route env p (node data)).2 (node data)).1 then []
             else [(send_bogo env (use_packet_route env p (node data)).2 (node data)).2])
    /\ (length (send_bogo_calls (handle_external env data).1) <= 1)%nat.
Proof.
  intros Hread Hrt.
  assert (Hb : (bytes_read env <=? 0) = false) by (apply Z.leb_gt; lia).
  unfold handle_external, handle_external_body, bogo_then_propagate, cleanup.
  rewrite Hb, Hrt.
  external_paths;
    eexists; (split; [reflexivity |]); rewrite Huse; cbn [fst snd];
    rewrite ?Hbogo; cbn [fst snd];
    repeat match goal with
           | H : negb ?b = _ |- _ => destruct b; try discriminate H; clear H
           end;
    repeat split; simpl; lia.
Qed.

Lemma one_bogo_retry_witness :
  exists p,
    use_packet_route_calls (handle_external failing_env routed_data).1 = [p]
    /\ send_bogo_calls (handle_external failing_env routed_data).1 = [p]
    /\ propagate_failure_calls (handle_external failing_env routed_data).1 = [p].
Proof.
  destruct (one_bogo_retry failing_env routed_data) as (p & Huse & Hbogo & Hprop & _).
  - simpl. lia.
  - reflexivity.
  - exists p. exact (conj Huse (conj Hbogo Hprop)).
Defined.

(** C2.  With a packet received and an empty routing table,
    [use_packet_route] is not called; [send_bogo] is called once, on the
    packet carrying the one-element route made of the local node id with
    [len = 1] and [step = 0]; [propagate_failure] is called once if it
    failed and not at all otherwise. *)
Theorem empty_table_goes_bogo (env : external_env) (data : external_request_thread_data_t) :
  0 < bytes_read env ->
  route_table_empty (routing_table (node data)) = true ->
  exists p,
    use_packet_route_calls (handle_external env data).1 = []
    /\ send_bogo_calls (handle_external env data).1 = [p]
    /\ pr p = Some {| path := [node_id (node data)]; len := 1; step := 0 |}
    /\ ipayload p = Some (received env)
    /\ prev_node_id p = node_id (node data)
    /\ propagate_failure_calls (handle_external env data).1 =
       (if (send_bogo env p (node data)).1 then []
        else [(send_bogo env p (node data)).2]).
Proof.
  intros Hread Hrt.
  assert (Hb : (bytes_read env <=? 0) = false) by (apply Z.leb_gt; lia).
  unfold handle_external, handle_external_body, bogo_then_propagate, cleanup.
  rewrite Hb, Hrt.
  external_paths;
    eexists; (split; [reflexivity |]); (split; [reflexivity |]);
    rewrite Hbogo; cbn [fst snd];
    repeat match goal with
           | H : negb ?b = _ |- _ => destruct b; try discriminate H; clear H
           end;
    by repeat split.
Qed.

Lemma empty_table_goes_bogo_witness :
  exists p,
    use_packet_route_calls (handle_external failing_env isolated_data).1 = []
    /\ send_bogo_calls (handle_external failing_env isolated_data).1 = [p]
    /\ pr p = Some {| path := [1]; len := 1; step := 0 |}
    /\ propagate_failure_calls (handle_external failing_env isolated_data).1 = [p].
Proof.
  destruct (empty_table_goes_bogo failing_env isolated_data)
    as (p & Huse & Hbogo & Hpr & _ & _ & Hprop).
  - simpl. lia.
  - reflexivity.
  - exists p. exact (conj Huse (conj Hbogo (conj Hpr Hprop))).
Defined.

(** C9.  The accepted connection and the thread data are released on
    every path but one: the call releases nothing exactly when a packet
    was received, the routing table is not empty and [use_packet_route]
    came through, and then that call is the last thing the function does.
    On the other paths, a failed [recv], an empty routing table or a
    failed route, the function ends with [shutdown], [close] and
    [free]. *)
Theorem connection_kept_when_routed (env : external_env)
    (data : external_request_thread_data_t) :
  (releases (handle_external env data).1 = []
   <-> 0 < bytes_read env
       /\ route_table_empty (routing_table (node data)) = false
       /\ exists p, use_packet_route_calls (handle_external env data).1 = [p]
                    /\ (use_packet_route env p (node data)).1 = true)
  /\ (releases (handle_external env data).1 = []
      -> exists t p, (handle_external env data).1 =
                     t ++ [EvUsePacketRoute p (node_id (node data))])
  /\ (releases (handle_external env data).1 <> []
      -> exists t, (handle_external env data).1 =
                   t ++ [EvShutdown (connection data);
                         EvClose (connection data);
                         EvFree (connection data)]
                   /\ releases t = [])
  /\ (handle_external env data).2 = Some tt.
Proof.
  unfold handle_external, handle_external_body, bogo_then_propagate, cleanup.
  destruct (Z.leb_spec (bytes_read env) 0) as [Hread | Hread].
  { cbn. repeat split; try done.
    - intros (? & _). lia.
    - intros _. by exists [EvRecvPacket (connection data) (bytes_read env)]. }
  destruct (route_table_empty (routing_table (node data))) eqn:Hrt.
  { external_paths; cbn; repeat split; try done.
    all: try (intros (_ & ? & _); done).
    - intros _. by eexists [_; _; _].
    - intros _. by eexists [_; _]. }
  external_paths.
  - cbn. repeat split; try done.
    + eexists. split; [reflexivity |]. by rewrite Huse.
    + intros _. by eexists [_; _], _.
  - cbn. repeat split; try done.
    + intros (_ & _ & p' & [= <-] & Hok). rewrite Huse in Hok. done.
    + intros _. by eexists [_; _; _; _; _].
  - cbn. repeat split; try done.
    + intros (_ & _ & p' & [= <-] & Hok). rewrite Huse in Hok. done.
    + intros _. by eexists [_; _; _; _].
Qed.

(** The two sides of C9 on concrete runs: a delivered packet leaves the
    connection open, a failed one closes it. *)
Example connection_kept_sample :
  handle_external delivering_env routed_data =
  ([EvRecvPacket 7 64;
    EvRouteSleep {| route_path := [1; 2; 5; 9]; route_delay := 10 |};
    EvUsePacketRoute
      {| ipayload := Some sample_request;
         pr := Some {| path := [1; 2; 5; 9]; len := 4; step := 0 |};
         prev_node_id := 1;
         dest_node_id := 0;
         is_response := false;
         ipayload_len := 0 |} 1], Some tt).
Proof. reflexivity. Qed.

Example connection_released_sample :
  releases (handle_external failing_env routed_data).1 = [EvShutdown 7; EvClose 7; EvFree 7]
  /\ releases (handle_external failing_env isolated_data).1 = [EvShutdown 7; EvClose 7; EvFree 7].
Proof. split; reflexivity. Qed.

(** The spec's scenario for a node without routes: node 1 hands the
    request, with the path [[1]], to a random neighbour, which takes it. *)
Example isolated_node_sample :
  send_bogo_calls (handle_external delivering_env isolated_data).1 =
  [{| ipayload := Some sample_request;
      pr := Some {| path := [1]; len := 1; step := 0 |};
      prev_node_id := 1;
      dest_node_id := 0;
      is_response := false;
      ipayload_len := 0 |}]
  /\ propagate_failure_calls (handle_external delivering_env isolated_data).1 = [].
Proof. split; reflexivity. Qed.

(** The spec's scenario for the bridge, two chunks, with helpers that
    take the buffer for a NUL-terminated string: the second, shorter read
    leaves the tail of the first in the buffer, and it is passed on. *)
Example two_chunks_sample :
  option_map payload
    (ipayload (fst (hd (sample_alloc, 0)
       (send_func_calls (handle_send_external sample_env sample_node sample_forward).1))))
  = Some (sample_chunk0 ++ sample_chunk1 ++ drop 5 sample_chunk0).
Proof. reflexivity. Qed.

(** * Further properties of the two entry points *)

(** ** What [handle_send_external] reports *)

Ltac bridge_signs :=
  repeat match goal with
         | H : (_ <? _) = true |- _ => apply Z.ltb_lt in H
         | H : (_ <? _) = false |- _ => apply Z.ltb_ge in H
         end.

(** X1.  With a payload to send, [handle_send_external] returns [false]
    exactly when [socket], [connect] or [send] failed: nothing that
    happens while the response is read, a failed [recv] included, is
    reported to the caller. *)
Theorem bridge_false_iff_setup_failed (env : bridge_env) (nd : node_t)
    (packet : wander_internal_packet) (wp : wander_packet) :
  ipayload packet = Some wp ->
  ((handle_send_external env nd packet).2 = Some false
   <-> socket_ret env < 0 \/ connect_ret env < 0 \/ send_ret env < 0).
Proof.
  intros Hwp. unfold handle_send_external, handle_send_external_body.
  rewrite Hwp, log_deref_some.
  bridge_paths; bridge_signs; (split; [try done; intros _; lia |]);
    try (intros [? | [? | ?]]; lia); done.
Qed.

Lemma bridge_false_iff_setup_failed_witness :
  (handle_send_external broken_env sample_node sample_forward).2 = Some false
  <-> 3 < 0 \/ 0 < 0 \/ 3 < 0.
Proof.
  apply (bridge_false_iff_setup_failed broken_env sample_node sample_forward sample_request).
  reflexivity.
Defined.

(** ** Routes too short to answer along *)

Lemma short_route_no_next (p : list Z) (n : Z) :
  Z.of_nat (length p) = n -> n <= 1 -> index (reverse_route p n) 1 = None.
Proof.
  intros Hn Hshort. rewrite index_lookup by lia.
  apply lookup_ge_None. pose proof (reverse_route_length p n Hn). lia.
Qed.

(** A forward request that was sent runs to the end whatever its route:
    neither read of the path is tested against [len]. *)
Lemma bridge_forward_any (env : bridge_env) (nd : node_t)
    (packet : wander_internal_packet) (wp : wander_packet) (opr : packet_route_t) :
  0 <= socket_ret env ->
  0 <= connect_ret env ->
  0 <= send_ret env ->
  ipayload packet = Some wp ->
  is_response packet = false ->
  pr packet = Some opr ->
  logging env = false
  \/ chunks_read (receive_response (R := bool) env (socket_ret env) wp).1 <> [] ->
  exists tl st,
    Forall is_recv tl
    /\ handle_send_external env nd packet =
       ([EvSocket (socket_ret env);
         EvConnect (socket_ret env) (dest_ipv4 wp) (dest_port wp);
         send_event env packet wp] ++ tl ++
        [EvSendFunc (return_packet env nd opr st (read_array env (path opr) 0))
           (read_array env (reverse_route (path opr) (len opr)) 1);
         EvPacketRouteFree (pr packet);
         EvClose (socket_ret env)], Some true).
Proof.
  intros Hs Hc Hsend Hwp Hresp Hpr Hlog.
  destruct (receive_response_continues env (socket_ret env) wp) as (st & Hst & Hsome).
  pose proof (receive_response_recv_only env (socket_ret env) wp) as Htl.
  destruct (receive_response env (socket_ret env) wp) as [tl fl] eqn:Hloop.
  cbn [fst snd] in *. subst fl.
  exists tl, st. split; [exact Htl |].
  unfold handle_send_external, handle_send_external_body, send_event.
  rewrite Hwp, Hresp, Hpr, log_deref_some.
  cbn [bind emit deref ret]. bridge_tests. cbn [bind emit deref ret app]. bridge_tests.
  cbn [bind emit deref ret app]. bridge_tests.
  cbn [negb bind emit deref ret app].
  rewrite Hloop. cbn [bind emit deref ret app].
  rewrite (log_deref_quiet env (ret_packet st)).
  - cbn. by rewrite <- app_assoc.
  - destruct Hlog as [Hoff | Hread]; [by left | right; by apply Hsome].
Qed.

(** X2.  A forward request that was sent and answered (or runs without
    logging) completes whatever the length of its route: line 102 reads
    [path[1]] of the reversed route without a bounds test, so [send_func]
    is called once, the route is freed, the socket is closed and [true]
    is returned.  With a well-formed route of fewer than two hops, such
    as the one-element route [handle_external] builds for a node without
    routes, the reversed route has no element 1 and the node [send_func]
    is addressed to is whatever lies beyond the array. *)
Theorem short_route_reads_beyond (env : bridge_env) (nd : node_t)
    (packet : wander_internal_packet) (wp : wander_packet) (opr : packet_route_t) :
  0 <= socket_ret env ->
  0 <= connect_ret env ->
  0 <= send_ret env ->
  ipayload packet = Some wp ->
  is_response packet = false ->
  pr packet = Some opr ->
  logging env = false
  \/ chunks_read (receive_response (R := bool) env (socket_ret env) wp).1 <> [] ->
  (handle_send_external env nd packet).2 = Some true
  /\ releases (handle_send_external env nd packet).1
     = [EvPacketRouteFree (pr packet); EvClose (socket_ret env)]
  /\ exists p next,
       send_func_calls (handle_send_external env nd packet).1 = [(p, next)]
       /\ (Z.of_nat (length (path opr)) = len opr -> len opr <= 1 ->
           index (reverse_route (path opr) (len opr)) 1 = None
           /\ next = stray env 1).
Proof.
  intros Hs Hc Hsend Hwp Hresp Hpr Hlog.
  destruct (bridge_forward_any env nd packet wp opr) as (tl & st & Htl & ->); try done.
  cbn [fst snd]. split; [done |]. split.
  - destruct (recv_only tl Htl) as (_ & _ & Hrel).
    unfold releases in *. rewrite !flat_map_app, Hrel.
    by destruct (is_response packet).
  - eexists _, _. split; [by apply send_func_calls_forward |].
    intros Hlen Hshort. pose proof (short_route_no_next _ _ Hlen Hshort) as Hnone.
    split; [exact Hnone |]. unfold read_array. by rewrite Hnone.
Qed.

Lemma short_route_reads_beyond_witness :
  (handle_send_external sample_env sample_node single_hop_packet).2 = Some true
  /\ exists p next,
       send_func_calls (handle_send_external sample_env sample_node single_hop_packet).1
         = [(p, next)]
       /\ index (reverse_route [9] 1) 1 = None
       /\ next = 0.
Proof.
  destruct (short_route_reads_beyond sample_env sample_node single_hop_packet
              sample_request {| path := [9]; len := 1; step := 0 |})
    as (Htrue & _ & p & next & Hcall & Hshort).
  - simpl. lia.
  - simpl. lia.
  - simpl. lia.
  - reflexivity.
  - reflexivity.
  - reflexivity.
  - right. vm_compute. discriminate.
  - split; [exact Htrue |]. exists p, next. split; [exact Hcall |].
    apply Hshort; [reflexivity | simpl; lia].
Defined.

(** ** What the bridge never does *)

(** X3.  The external socket is read only for a forward request whose
    request has been sent: if any [recv] is made then [socket], [connect]
    and [send] succeeded, the packet is not a response, and its payload
    and route pointers are not NULL. *)
Theorem recv_only_after_request_sent (env : bridge_env) (nd : node_t)
    (packet : wander_internal_packet) :
  recv_requests (handle_send_external env nd packet).1 <> [] ->
  0 <= socket_ret env
  /\ 0 <= connect_ret env
  /\ 0 <= send_ret env
  /\ is_response packet = false
  /\ is_Some (ipayload packet)
  /\ is_Some (pr packet).
Proof.
  unfold handle_send_external, handle_send_external_body.
  bridge_paths; bridge_signs;
    unfold recv_requests; cbn [flat_map app]; intros Hrecv; try done;
    repeat split; by eauto.
Qed.

Lemma recv_only_after_request_sent_witness :
  0 <= 3 /\ 0 <= 0 /\ 0 <= 3
  /\ false = false
  /\ is_Some (Some sample_request)
  /\ is_Some (Some {| path := [1; 2; 5; 9]; len := 4; step := 3 |}).
Proof.
  apply (recv_only_after_request_sent broken_env sample_node sample_forward).
  vm_compute. discriminate.
Defined.

(** X4.  However many chunks the peer sends, [send_func] is called at
    most once per request, after the stream has ended.  Whatever it is
    given is marked as a response, names the local node as previous hop
    and carries a route whose cursor is 1; and it is called only for a
    forward request on a run that goes on to return [true]. *)
Theorem send_func_at_most_once (env : bridge_env) (nd : node_t)
    (packet : wander_internal_packet) :
  (length (send_func_calls (handle_send_external env nd packet).1) <= 1)%nat
  /\ Forall (fun c => is_response c.1 = true
                      /\ prev_node_id c.1 = node_id nd
                      /\ exists r, pr c.1 = Some r /\ step r = 1)
       (send_func_calls (handle_send_external env nd packet).1)
  /\ (send_func_calls (handle_send_external env nd packet).1 <> [] ->
      is_response packet = false
      /\ (handle_send_external env nd packet).2 = Some true).
Proof.
  unfold handle_send_external, handle_send_external_body.
  bridge_paths;
    unfold send_func_calls; cbn [flat_map app]; rewrite ?flat_map_app;
    drop_recvs; cbn [flat_map app length fst snd];
    (split; [lia |]); (split; [repeat constructor; by eauto |]);
    intros Hcall; done.
Qed.

(** X5.  The route is freed and the socket closed at most once, together
    and at the very end: either the run releases nothing, or its trace
    ends with [packet_route_free(packet->pr)] followed by
    [close(ext_sockfd)] and nothing before them is a release.  The socket
    is never used after it is closed and nothing is freed twice. *)
Theorem release_only_at_the_end (env : bridge_env) (nd : node_t)
    (packet : wander_internal_packet) :
  releases (handle_send_external env nd packet).1 = []
  \/ exists t,
       (handle_send_external env nd packet).1 =
         t ++ [EvPacketRouteFree (pr packet); EvClose (socket_ret env)]
       /\ releases t = []
       /\ (handle_send_external env nd packet).2 = Some true.
Proof.
  unfold handle_send_external, handle_send_external_body.
  bridge_paths;
    try (left; unfold releases; cbn [flat_map app]; rewrite ?flat_map_app;
         drop_recvs; done).
  all: right;
    first [ eexists [_; _; _]; split; [reflexivity |]
          | eexists (_ :: _ :: _ :: _ ++ [_]); split; [reflexivity |] ];
    (split; [| done]);
    unfold releases; cbn [flat_map app]; rewrite ?flat_map_app;
    drop_recvs; done.
Qed.

(** X6.  A packet whose payload pointer is NULL is never connected, sent,
    answered or released for: the run makes no [connect], [send], [recv]
    or [send_func] call and frees and closes nothing, and it never returns
    [true].  When [socket] succeeded the run has no result at all, the
    descriptor staying open. *)
Theorem null_payload_goes_nowhere (env : bridge_env) (nd : node_t)
    (packet : wander_internal_packet) :
  ipayload packet = None ->
  connects (handle_send_external env nd packet).1 = []
  /\ sends (handle_send_external env nd packet).1 = []
  /\ recv_requests (handle_send_external env nd packet).1 = []
  /\ send_func_calls (handle_send_external env nd packet).1 = []
  /\ releases (handle_send_external env nd packet).1 = []
  /\ (handle_send_external env nd packet).2 <> Some true
  /\ (0 <= socket_ret env -> (handle_send_external env nd packet).2 = None).
Proof.
  intros Hnull. unfold handle_send_external, handle_send_external_body.
  rewrite Hnull.
  bridge_paths; bridge_signs; repeat split; try done; intros; lia.
Qed.

Lemma null_payload_goes_nowhere_witness :
  connects (handle_send_external silent_env sample_node null_packet).1 = []
  /\ releases (handle_send_external silent_env sample_node null_packet).1 = []
  /\ (handle_send_external silent_env sample_node null_packet).2 = None.
Proof.
  destruct (null_payload_goes_nowhere silent_env sample_node null_packet)
    as (Hconn & _ & _ & _ & Hrel & _ & Hnone).
  - reflexivity.
  - split; [exact Hconn |]. split; [exact Hrel |]. apply Hnone. simpl. lia.
Defined.

(** Every event of the loop is on the loop's descriptor. *)
Lemma recv_loop_descriptor {R} (run_flag : nat -> bool)
    (create append : wander_packet -> list u8 -> Z -> wander_packet)
    (fd : Z) (wp : wander_packet)
    (script : list recv_result) :
  forall i st, Forall (on_descriptor fd) (recv_loop (R := R) run_flag create append fd wp script i st).1.
Proof.
  induction script as [| r script IH]; intros i st.
  - destruct (run_flag i) eqn:Hr.
    + rewrite recv_loop_closed by done. by repeat constructor.
    + rewrite recv_loop_stopped by done. constructor.
  - destruct (run_flag i) eqn:Hr; [| rewrite recv_loop_stopped by done; constructor].
    cbn [recv_loop]. rewrite Hr.
    apply Forall_bind; [by repeat constructor | intros _].
    destruct (0 <? recv_ret r); [| constructor].
    apply Forall_bind; [| intros st'; apply IH].
    unfold loop_body. destruct (seq_nr st =? 0); [constructor |].
    destruct (ret_packet st); constructor.
Qed.

(** X7.  Every socket call of [handle_send_external], [connect], [send],
    each [recv] and [close], is made on the descriptor [socket] returned;
    no other descriptor is touched. *)
Theorem bridge_uses_its_own_socket (env : bridge_env) (nd : node_t)
    (packet : wander_internal_packet) :
  Forall (on_descriptor (socket_ret env)) (handle_send_external env nd packet).1.
Proof.
  unfold handle_send_external. rewrite run_trace.
  unfold handle_send_external_body.
  repeat first
    [ apply Forall_bind; [| intros ?]
    | apply Forall_emit; exact I
    | apply Forall_emit; reflexivity
    | apply Forall_deref
    | apply Forall_log_deref
    | apply recv_loop_descriptor
    | match goal with
      | |- Forall _ (if ?b then _ else _).1 => destruct b
      end
    | by constructor ].
Qed.

(** ** How the receive loop consumes the stream *)

Lemma recv_requests_recv (fd cap : Z) (r : recv_result) (t : trace) :
  recv_requests (EvRecv fd cap r :: t) = cap :: recv_requests t.
Proof. reflexivity. Qed.

(** The loop takes the reads one by one, in order, up to the first test
    at which the node is no longer running or the read brought nothing. *)
Lemma recv_loop_prefix {R} (run_flag : nat -> bool)
    (create append : wander_packet -> list u8 -> Z -> wander_packet)
    (fd : Z) (wp : wander_packet)
    (script : list recv_result) :
  forall i st,
    (seq_nr st <> 0 -> is_Some (ret_packet st)) ->
    exists k,
      (k <= length script)%nat
      /\ chunks_read (recv_loop (R := R) run_flag create append fd wp script i st).1
         = recv_data <$> take k script
      /\ (forall j r, (j < k)%nat -> script !! j = Some r ->
            run_flag (i + j)%nat = true /\ 0 < recv_ret r)
      /\ (run_flag (i + k)%nat = false
          \/ recv_ret (default (RecvBytes []) (script !! k)) <= 0)
      /\ length (recv_requests (recv_loop (R := R) run_flag create append fd wp script i st).1)
         = (k + (if run_flag (i + k)%nat then 1 else 0))%nat.
Proof.
  assert (Hzero : forall (t : trace) (s : list recv_result) i n,
    chunks_read t = [] ->
    length (recv_requests t) = n ->
    n = (if run_flag i then 1 else 0)%nat ->
    run_flag i = false \/ recv_ret (default (RecvBytes []) (s !! 0%nat)) <= 0 ->
    exists k,
      (k <= length s)%nat
      /\ chunks_read t = recv_data <$> take k s
      /\ (forall j r, (j < k)%nat -> s !! j = Some r ->
            run_flag (i + j)%nat = true /\ 0 < recv_ret r)
      /\ (run_flag (i + k)%nat = false
          \/ recv_ret (default (RecvBytes []) (s !! k)) <= 0)
      /\ length (recv_requests t) = (k + (if run_flag (i + k)%nat then 1 else 0))%nat).
  { intros t s i n Hchunks Hlen Hn Hstop. exists 0%nat. rewrite Nat.add_0_r.
    split; [lia |]. split; [by rewrite Hchunks |].
    split; [intros j r Hj; lia |]. split; [exact Hstop |]. by rewrite Hlen, Hn. }
  induction script as [| r script IH]; intros i st Hinv.
  - destruct (run_flag i) eqn:Hr.
    + rewrite recv_loop_closed by done.
      apply (Hzero _ _ _ 1%nat); try done; [by rewrite Hr | by right].
    + rewrite recv_loop_stopped by done.
      apply (Hzero _ _ _ 0%nat); try done; [by rewrite Hr | by left].
  - destruct (run_flag i) eqn:Hr.
    2:{ rewrite recv_loop_stopped by done.
        apply (Hzero _ _ _ 0%nat); try done; [by rewrite Hr | by left]. }
    destruct (Z.lt_ge_cases 0 (recv_ret r)) as [Hpos | Hle].
    2:{ rewrite recv_loop_end by (done || lia).
        apply (Hzero _ _ _ 1%nat); try done.
        - unfold chunks_read. simpl. by destruct (Z.ltb_spec 0 (recv_ret r)); [lia |].
        - by rewrite Hr.
        - right. simpl. lia. }
    assert (Hbody : exists st1,
      loop_body (R := R) create append wp r st = ([], Next st1) /\ is_Some (ret_packet st1)).
    { destruct (Z.eq_dec (seq_nr st) 0) as [H0 | Hne].
      - eexists. split; [by apply loop_body_first |]. simpl. by eauto.
      - destruct (Hinv Hne) as [p Hp].
        eexists. split; [by apply loop_body_later |]. simpl. by eauto. }
    destruct Hbody as (st1 & Hbody & Hsome1).
    rewrite (recv_loop_step run_flag create append fd wp r script i st st1) by done. cbn [fst snd].
    destruct (IH (S i) st1 (fun _ => Hsome1)) as (k & Hk & Hchunks & Hall & Hstop & Hcount).
    exists (S k).
    replace (i + S k)%nat with (S i + k)%nat by lia.
    split; [simpl; lia |].
    split; [rewrite chunks_read_recv by done; by rewrite Hchunks |].
    split.
    { intros j r' Hj Hlook. destruct j as [| j]; simpl in Hlook.
      - injection Hlook as <-. by rewrite Nat.add_0_r.
      - replace (i + S j)%nat with (S i + j)%nat by lia.
        apply (Hall j r'); [lia | done]. }
    split; [exact Hstop |].
    rewrite recv_requests_recv. cbn [length]. rewrite Hcount. lia.
Qed.

(** X8.  The chunks the loop reads are the first [k] results of [recv],
    in the order the peer sent them, where [k] is the first pass at which
    [node->running] is false or [recv] returns nothing: the flag is
    tested before every read, no read is made once it is false, and none
    after a read that returned zero or failed. *)
Theorem chunks_are_the_stream_prefix (env : bridge_env) (fd : Z) (wp : wander_packet) :
  exists k,
    (k <= length (recv_script env))%nat
    /\ chunks_read (receive_response (R := bool) env fd wp).1
       = recv_data <$> take k (recv_script env)
    /\ (forall j r, (j < k)%nat -> recv_script env !! j = Some r ->
          running env j = true /\ 0 < recv_ret r)
    /\ (running env k = false
        \/ recv_ret (default (RecvBytes []) (recv_script env !! k)) <= 0)
    /\ length (recv_requests (receive_response (R := bool) env fd wp).1)
       = (k + (if running env k then 1 else 0))%nat.
Proof.
  unfold receive_response.
  destruct (recv_loop_prefix (R := bool) (running env)
              (create_response env) (append_response env) fd wp (recv_script env) 0
              {| response := response_init; seq_nr := 0; ret_packet := None |})
    as (k & Hk); [done |].
  by exists k.
Qed.

Example stream_prefix_sample :
  chunks_read (receive_response (R := bool) broken_env 3 sample_request).1 = [sample_chunk0]
  /\ recv_requests (receive_response (R := bool) broken_env 3 sample_request).1
     = [65534; 65534].
Proof. split; reflexivity. Qed.

(** A loop that read no chunk leaves its state as it found it. *)
Lemma recv_loop_unchanged {R} (run_flag : nat -> bool)
    (create append : wander_packet -> list u8 -> Z -> wander_packet)
    (fd : Z) (wp : wander_packet)
    (script : list recv_result) (i : nat) (st : loop_state) :
  (seq_nr st <> 0 -> is_Some (ret_packet st)) ->
  chunks_read (recv_loop (R := R) run_flag create append fd wp script i st).1 = [] ->
  (recv_loop (R := R) run_flag create append fd wp script i st).2 = Next st.
Proof.
  intros Hinv. destruct (run_flag i) eqn:Hr; [| by rewrite recv_loop_stopped].
  destruct script as [| r script]; [by rewrite recv_loop_closed |].
  destruct (Z.lt_ge_cases 0 (recv_ret r)) as [Hpos | Hle];
    [| by rewrite recv_loop_end by (done || lia)].
  assert (Hbody : exists st1, loop_body (R := R) create append wp r st = ([], Next st1)).
  { destruct (Z.eq_dec (seq_nr st) 0) as [H0 | Hne].
    - eexists. by apply loop_body_first.
    - destruct (Hinv Hne) as [p Hp]. eexists. by apply loop_body_later. }
  destruct Hbody as (st1 & Hbody).
  rewrite (recv_loop_step run_flag create append fd wp r script i st st1) by done. cbn [fst].
  by rewrite chunks_read_recv.
Qed.

Lemma receive_response_null_iff (env : bridge_env) (fd : Z) (wp : wander_packet) :
  exists st,
    (receive_response (R := bool) env fd wp).2 = Next st
    /\ (ret_packet st = None
        <-> chunks_read (receive_response (R := bool) env fd wp).1 = []).
Proof.
  destruct (receive_response_continues env fd wp) as (st & Hflow & Hsome).
  exists st. split; [exact Hflow |]. split.
  - intros Hnull.
    destruct (chunks_read (receive_response (R := bool) env fd wp).1) eqn:Hread; [done |].
    destruct Hsome as [p Hp]; [done | congruence].
  - intros Hread.
    pose proof (recv_loop_unchanged (R := bool) (running env)
              (create_response env) (append_response env) fd wp (recv_script env) 0
                  {| response := response_init; seq_nr := 0; ret_packet := None |}) as Hsame.
    fold (receive_response (R := bool) env fd wp) in Hsame.
    rewrite Hsame in Hflow by done. by injection Hflow as <-.
Qed.

(** Case analysis over the paths of the bridge that keeps the link
    between what the loop read and the response it left. *)
Ltac bridge_paths_linked :=
  repeat first
    [ progress cbn [bind emit ret return_ fault deref run fst snd app negb]
    | progress unfold log_deref
    | match goal with
      | |- context [receive_response ?e ?f ?w] =>
          let tl := fresh "tl" in
          let fl := fresh "fl" in
          let st := fresh "st" in
          let Htl := fresh "Htl" in
          let Hst := fresh "Hst" in
          let Hlink := fresh "Hlink" in
          pose proof (receive_response_recv_only e f w) as Htl;
          destruct (receive_response_null_iff e f w) as (st & Hst & Hlink);
          destruct (receive_response e f w) as [tl fl];
          cbn [fst snd] in Htl, Hst, Hlink; subst fl
      | |- context [if ?b then _ else _] => destruct b eqn:?
      | |- context [deref ?o] => destruct o eqn:?
      end ].

Lemma chunks_read_around (pre tl post : trace) :
  chunks_read pre = [] -> chunks_read post = [] ->
  chunks_read (pre ++ tl ++ post) = chunks_read tl.
Proof.
  intros Hpre Hpost. unfold chunks_read in *.
  by rewrite !flat_map_app, Hpre, Hpost, app_nil_r.
Qed.

(** X9.  The response handed to [send_func] is NULL exactly when the loop
    read no chunk at all: as soon as one read brought data the return
    packet carries a response, and never otherwise. *)
Theorem forwarded_null_iff_nothing_read (env : bridge_env) (nd : node_t)
    (packet : wander_internal_packet) (p : wander_internal_packet) (next : Z) :
  send_func_calls (handle_send_external env nd packet).1 = [(p, next)] ->
  (ipayload p = None <-> chunks_read (handle_send_external env nd packet).1 = []).
Proof.
  unfold handle_send_external, handle_send_external_body.
  bridge_paths_linked;
    unfold send_func_calls; cbn [flat_map app]; rewrite ?flat_map_app;
    drop_recvs; cbn [flat_map app]; intros Hcall; try done;
    injection Hcall as <- <-; cbn [ipayload wander_internal_from_external];
    match goal with
    | |- _ <-> chunks_read (?a :: ?b :: ?c :: (?tl ++ ?d) ++ ?e) = [] =>
        change (a :: b :: c :: (tl ++ d) ++ e) with ([a; b; c] ++ (tl ++ d) ++ e);
        rewrite <- (app_assoc tl), (chunks_read_around [a; b; c] tl (d ++ e)) by done
    end;
    done.
Qed.

Lemma forwarded_null_iff_nothing_read_witness :
  exists p next,
    send_func_calls (handle_send_external silent_env sample_node sample_forward).1
      = [(p, next)]
    /\ (ipayload p = None
        <-> chunks_read (handle_send_external silent_env sample_node sample_forward).1 = []).
Proof.
  eexists _, _. split; [reflexivity |].
  eapply (forwarded_null_iff_nothing_read silent_env sample_node sample_forward).
  reflexivity.
Defined.

(** ** The response buffer *)

Lemma recv_store_last (buf : list u8) (r : recv_result) :
  recv_ret r <= recv_cap ->
  recv_store buf r !! Z.to_nat recv_cap = buf !! Z.to_nat recv_cap.
Proof.
  intros Hcap. unfold recv_store.
  assert (Hd : (length (recv_data r) <= Z.to_nat recv_cap)%nat).
  { destruct r as [| d]; unfold recv_cap, UINT16_MAX in *; simpl in *; lia. }
  rewrite lookup_app_r by exact Hd. rewrite lookup_drop. f_equal. lia.
Qed.

Lemma recv_loop_buffer {R} (run_flag : nat -> bool)
    (create append : wander_packet -> list u8 -> Z -> wander_packet)
    (fd : Z) (wp : wander_packet)
    (script : list recv_result) :
  Forall (fun r => recv_ret r <= recv_cap) script ->
  forall i st,
    (seq_nr st <> 0 -> is_Some (ret_packet st)) ->
    Z.of_nat (length (response st)) = UINT16_MAX ->
    response st !! Z.to_nat recv_cap = Some Byte.x00 ->
    exists st',
      (recv_loop (R := R) run_flag create append fd wp script i st).2 = Next st'
      /\ Z.of_nat (length (response st')) = UINT16_MAX
      /\ response st' !! Z.to_nat recv_cap = Some Byte.x00.
Proof.
  induction 1 as [| r script Hr _ IH]; intros i st Hinv Hlen Hlast.
  - destruct (run_flag i) eqn:Hrun.
    + rewrite recv_loop_closed by done. by exists st.
    + rewrite recv_loop_stopped by done. by exists st.
  - destruct (run_flag i) eqn:Hrun; [| rewrite recv_loop_stopped by done; by exists st].
    destruct (Z.lt_ge_cases 0 (recv_ret r)) as [Hpos | Hle];
      [| rewrite recv_loop_end by (done || lia); by exists st].
    assert (Hbody : exists st1,
      loop_body (R := R) create append wp r st = ([], Next st1)
      /\ is_Some (ret_packet st1)
      /\ response st1 = recv_store (response st) r).
    { destruct (Z.eq_dec (seq_nr st) 0) as [H0 | Hne].
      - eexists. split; [by apply loop_body_first |]. simpl. by eauto.
      - destruct (Hinv Hne) as [p Hp].
        eexists. split; [by apply loop_body_later |]. simpl. by eauto. }
    destruct Hbody as (st1 & Hbody & Hsome1 & Hbuf1).
    rewrite (recv_loop_step run_flag create append fd wp r script i st st1) by done. cbn [snd].
    apply IH; [done | |].
    + rewrite Hbuf1. by apply recv_store_length.
    + rewrite Hbuf1, recv_store_last by done. exact Hlast.
Qed.

(** X10.  As long as no [recv] returns more than the [UINT16_MAX - 1]
    bytes it was asked for, the [response] buffer keeps its 65535 bytes
    and its last byte, which no read can reach, stays the zero [memset]
    put there: the buffer is never overrun and always ends in NUL. *)
Theorem response_buffer_never_overrun (env : bridge_env) (fd : Z) (wp : wander_packet) :
  Forall (fun r => recv_ret r <= recv_cap) (recv_script env) ->
  exists st,
    (receive_response (R := bool) env fd wp).2 = Next st
    /\ Z.of_nat (length (response st)) = 65535
    /\ response st !! Z.to_nat 65534 = Some Byte.x00.
Proof.
  intros Hcontract. unfold receive_response.
  apply (recv_loop_buffer (R := bool) (running env)
              (create_response env) (append_response env) fd wp (recv_script env) Hcontract 0
           {| response := response_init; seq_nr := 0; ret_packet := None |}).
  - done.
  - cbn [response]. unfold response_init. rewrite length_replicate. unfold UINT16_MAX. lia.
  - cbn [response]. unfold response_init. apply lookup_replicate_2.
    unfold recv_cap, UINT16_MAX. lia.
Qed.

Lemma response_buffer_never_overrun_witness :
  exists st,
    (receive_response (R := bool) broken_env 3 sample_request).2 = Next st
    /\ Z.of_nat (length (response st)) = 65535
    /\ response st !! Z.to_nat 65534 = Some Byte.x00.
Proof.
  apply (response_buffer_never_overrun broken_env 3 sample_request).
  repeat constructor; vm_compute; discriminate.
Defined.

(** ** The route of the return packet *)

(** X11.  The route of the return packet is a well-formed route back: it
    has as many elements as its [len] says and its cursor lies inside it;
    it starts at the last node of the forward path, its first hop, the
    node [send_func] is addressed to, is the node before that one on the
    forward path, and its last element is the packet's [dest_node_id]. *)
Theorem return_route_leads_back (env : bridge_env) (nd : node_t)
    (packet : wander_internal_packet) (wp : wander_packet) (opr : packet_route_t) :
  0 <= socket_ret env ->
  0 <= connect_ret env ->
  0 <= send_ret env ->
  ipayload packet = Some wp ->
  is_response packet = false ->
  pr packet = Some opr ->
  Z.of_nat (length (path opr)) = len opr ->
  2 <= len opr ->
  logging env = false
  \/ chunks_read (receive_response (R := bool) env (socket_ret env) wp).1 <> [] ->
  exists p next r,
    send_func_calls (handle_send_external env nd packet).1 = [(p, next)]
    /\ pr p = Some r
    /\ Z.of_nat (length (path r)) = len r
    /\ 0 < step r < len r
    /\ index (path r) 0 = index (path opr) (len opr - 1)
    /\ index (path r) (step r) = Some next
    /\ index (path opr) (len opr - 2) = Some next
    /\ index (path r) (len r - 1) = Some (dest_node_id p).
Proof.
  intros Hs Hc Hsend Hwp Hresp Hpr Hlen Hhops Hlog.
  destruct (bridge_forward_runs env nd packet wp opr)
    as (tl & st & origin & next & _ & Htl & Horigin & Hnext & Hrev & ->); try done.
  exists (return_packet env nd opr st origin), next,
         {| path := reverse_route (path opr) (len opr); len := len opr; step := 1 |}.
  cbn [fst pr return_packet path len step dest_node_id].
  split; [by apply send_func_calls_forward |].
  split; [done |].
  split; [by apply reverse_route_length |].
  split; [lia |].
  split; [rewrite reverse_route_index by lia; f_equal; lia |].
  split; [by rewrite Hrev |].
  split.
  - rewrite <- Hnext, <- Hrev, reverse_route_index by lia. f_equal. lia.
  - rewrite reverse_route_index by lia. rewrite <- Horigin. f_equal. lia.
Qed.

Lemma return_route_leads_back_witness :
  exists p next r,
    send_func_calls (handle_send_external broken_env sample_node sample_forward).1
      = [(p, next)]
    /\ pr p = Some r
    /\ index (path r) (step r) = Some next
    /\ index [1; 2; 5; 9] (4 - 2) = Some next
    /\ index (path r) (len r - 1) = Some (dest_node_id p).
Proof.
  destruct (return_route_leads_back broken_env sample_node sample_forward sample_request
              {| path := [1; 2; 5; 9]; len := 4; step := 3 |})
    as (p & next & r & Hcall & Hpr & _ & _ & _ & Hnext & Hprev & Hdest).
  - simpl. lia.
  - simpl. lia.
  - simpl. lia.
  - reflexivity.
  - reflexivity.
  - reflexivity.
  - reflexivity.
  - simpl. lia.
  - right. vm_compute. discriminate.
  - exists p, next, r. exact (conj Hcall (conj Hpr (conj Hnext (conj Hprev Hdest)))).
Defined.

(** ** Further properties of [handle_external] *)

(** X12.  When the read on the accepted connection fails or brings
    nothing, the packet is dropped: no route is looked up or waited for,
    none of [use_packet_route], [send_bogo] and [propagate_failure] is
    called, and the connection is shut down, closed and its thread data
    freed. *)
Theorem failed_read_drops_request (env : external_env)
    (data : external_request_thread_data_t) :
  bytes_read env <= 0 ->
  route_sleeps (handle_external env data).1 = []
  /\ use_packet_route_calls (handle_external env data).1 = []
  /\ send_bogo_calls (handle_external env data).1 = []
  /\ propagate_failure_calls (handle_external env data).1 = []
  /\ handle_external env data =
     ([EvRecvPacket (connection data) (bytes_read env);
       EvShutdown (connection data);
       EvClose (connection data);
       EvFree (connection data)], Some tt).
Proof.
  intros Hread. unfold handle_external, handle_external_body, cleanup.
  destruct (Z.leb_spec (bytes_read env) 0) as [_ | ?]; [| lia].
  by cbn.
Qed.

Lemma failed_read_drops_request_witness :
  use_packet_route_calls (handle_external closed_env routed_data).1 = []
  /\ send_bogo_calls (handle_external closed_env routed_data).1 = []
  /\ releases (handle_external closed_env routed_data).1
     = [EvShutdown 7; EvClose 7; EvFree 7].
Proof.
  destruct (failed_read_drops_request closed_env routed_data)
    as (_ & Huse & Hbogo & _ & Hrun).
  - simpl. lia.
  - split; [exact Huse |]. split; [exact Hbogo |]. by rewrite Hrun.
Defined.

(** X13.  With a packet read and a routing table that is not empty, the
    function first waits for the route it drew and only then calls
    [use_packet_route], and it does both once.  The packet it passes
    carries the received external packet, the local node as previous hop
    and a copy of that same route, taken from the routing table, with the
    cursor at 0. *)
Theorem routed_request_prepared (env : external_env)
    (data : external_request_thread_data_t) :
  0 < bytes_read env ->
  route_table_empty (routing_table (node data)) = false ->
  exists route p rest,
    (handle_external env data).1 =
      EvRecvPacket (connection data) (bytes_read env)
      :: EvRouteSleep route
      :: EvUsePacketRoute p (node_id (node data))
      :: rest
    /\ route_sleeps rest = []
    /\ use_packet_route_calls rest = []
    /\ route ∈ routing_table (node data)
    /\ pr p = Some {| path := route_path route;
                      len := Z.of_nat (length (route_path route));
                      step := 0 |}
    /\ ipayload p = Some (received env)
    /\ prev_node_id p = node_id (node data).
Proof.
  intros Hread Hrt.
  assert (Hb : (bytes_read env <=? 0) = false) by (apply Z.leb_gt; lia).
  unfold handle_external, handle_external_body, bogo_then_propagate, cleanup.
  rewrite Hb, Hrt.
  external_paths;
    eexists route, _, _; (split; [reflexivity |]);
    repeat split; try done;
    by apply (list_elem_of_lookup_2 _ _ _ Hroute).
Qed.

Lemma routed_request_prepared_witness :
  exists route p rest,
    (handle_external failing_env routed_data).1 =
      EvRecvPacket 7 64 :: EvRouteSleep route :: EvUsePacketRoute p 1 :: rest
    /\ route ∈ routing_table (node routed_data)
    /\ pr p = Some {| path := route_path route;
                      len := Z.of_nat (length (route_path route));
                      step := 0 |}.
Proof.
  destruct (routed_request_prepared failing_env routed_data)
    as (route & p & rest & Hrun & _ & _ & Hin & Hpr & _).
  - simpl. lia.
  - reflexivity.
  - exists route, p, rest. exact (conj Hrun (conj Hin Hpr)).
Defined.
